(** * squint-vite-plugin: resolution, caching and hot reload

    A shallow embedding of [src/index.mjs].  The plugin keeps two JS objects
    used as maps ([srcFileMap], [compiledFileMap]), probes the file system
    with the synchronous [fs] calls and awaits the external compiler once in
    [load].  The embedding threads a [World] (plugin state, file system and
    the trace of external calls) through a small state-and-exception monad.

    Node's [path] module (POSIX flavour) is not part of the repository; it is
    modelled in [Module Path] on byte strings.  The [log] of [createLogger]
    only prints, or does nothing, and is left out. *)

From Stdlib Require Import ZArith Ascii String List Lia Bool.
From stdpp Require Import base option gmap strings.

Local Open Scope string_scope.

(* ===================================================================== *)
(** ** JS string helpers *)
(* ===================================================================== *)

Module JsString.

(** [s.startsWith(p)] *)
Fixpoint startsWith (p s : string) : bool :=
  match p, s with
  | EmptyString, _ => true
  | String a p', String b s' => Ascii.eqb a b && startsWith p' s'
  | String _ _, EmptyString => false
  end.

(** A JS string is falsy exactly when it is empty. *)
Definition truthy (s : string) : bool :=
  match s with EmptyString => false | String _ _ => true end.

(** [o || d] for an [o] that is a string or [undefined]. *)
Definition or_else (o : option string) (d : string) : string :=
  match o with
  | Some s => if truthy s then s else d
  | None => d
  end.

(** [!!o] for an [o] that is a string or [undefined]. *)
Definition truthy_opt (o : option string) : bool :=
  match o with Some s => truthy s | None => false end.

(** [/\.cljs$/.test(s)]: without the [m] flag [$] only matches at the end
    of the input, so the test says that [s] ends in [.cljs]. *)
Fixpoint test_cljs (s : string) : bool :=
  match s with
  | EmptyString => false
  | String c s' => String.eqb s ".cljs" || test_cljs s'
  end.

(** [s.replace(/\.cljs$/, ".jsx")]: the only possible match is the final
    [.cljs]; a string without it is returned as it is. *)
Fixpoint replace_cljs (s : string) : string :=
  match s with
  | EmptyString => EmptyString
  | String c s' => if String.eqb s ".cljs" then ".jsx" else String c (replace_cljs s')
  end.

End JsString.

(** The names a plain [{}] inherits from [Object.prototype].  Where the
    object has no entry of its own under such a key, [obj[key]] is a
    function, or the prototype itself for [__proto__]: a truthy value that
    is neither a string nor an array. *)
Definition object_prototype_members : list string :=
  ["constructor"; "__defineGetter__"; "__defineSetter__"; "hasOwnProperty";
   "__lookupGetter__"; "__lookupSetter__"; "isPrototypeOf";
   "propertyIsEnumerable"; "toString"; "valueOf"; "__proto__";
   "toLocaleString"].

Definition inherited_name (key : string) : bool :=
  existsb (String.eqb key) object_prototype_members.

(* ===================================================================== *)
(** ** Node's POSIX [path] *)
(* ===================================================================== *)

Module Path.

Definition is_slash (c : ascii) : bool := Ascii.eqb c "/".
Definition is_dot (c : ascii) : bool := Ascii.eqb c ".".

(** The character at index [i], [None] past the end. *)
Definition charAt (s : string) (i : nat) : option ascii := String.get i s.

Definition slash_at (s : string) (i : nat) : bool :=
  match charAt s i with Some c => is_slash c | None => false end.

(** [s.split("/")] *)
Fixpoint split (s : string) : list string :=
  match s with
  | EmptyString => [EmptyString]
  | String c s' =>
      if is_slash c then EmptyString :: split s'
      else match split s' with
           | [] => [String c EmptyString]
           | seg :: rest => String c seg :: rest
           end
  end.

(** [segs.join("/")] *)
Fixpoint join (segs : list string) : string :=
  match segs with
  | [] => EmptyString
  | [seg] => seg
  | seg :: rest => seg ++ "/" ++ join rest
  end.

(** [normalizeString]: the segments of the path are pushed on a stack
    ([acc], top first); empty and [.] segments are dropped, [..] pops a
    segment that is not itself [..], and is kept only when
    [allowAboveRoot]. *)
Fixpoint normalizeSegs (allowAboveRoot : bool) (acc : list string)
    (segs : list string) : list string :=
  match segs with
  | [] => rev acc
  | seg :: rest =>
      if String.eqb seg "" || String.eqb seg "." then
        normalizeSegs allowAboveRoot acc rest
      else if String.eqb seg ".." then
        match acc with
        | top :: acc' =>
            if String.eqb top ".." then
              normalizeSegs allowAboveRoot
                (if allowAboveRoot then ".." :: acc else acc) rest
            else normalizeSegs allowAboveRoot acc' rest
        | [] =>
            normalizeSegs allowAboveRoot
              (if allowAboveRoot then [".."] else []) rest
        end
      else normalizeSegs allowAboveRoot (seg :: acc) rest
  end.

Definition normalizeString (path : string) (allowAboveRoot : bool) : string :=
  join (normalizeSegs allowAboveRoot [] (split path)).

(** The loop of [path.resolve]: the arguments are visited from the right,
    [process.cwd()] last, until an absolute one has been prepended. *)
Fixpoint resolve_loop (rpaths : list string) (resolvedPath : string)
    : string * bool :=
  match rpaths with
  | [] => (resolvedPath, false)
  | p :: rest =>
      match p with
      | EmptyString => resolve_loop rest resolvedPath
      | String c _ =>
          let resolvedPath' := p ++ "/" ++ resolvedPath in
          if is_slash c then (resolvedPath', true)
          else resolve_loop rest resolvedPath'
      end
  end.

(** [path.resolve(...paths)], with [cwd] the value of [process.cwd()]. *)
Definition resolve (cwd : string) (paths : list string) : string :=
  let '(resolvedPath, resolvedAbsolute) :=
    resolve_loop (rev paths ++ [cwd]) EmptyString in
  let normalized := normalizeString resolvedPath (negb resolvedAbsolute) in
  if resolvedAbsolute then "/" ++ normalized
  else if JsString.truthy normalized then normalized else ".".

(** The loop of [path.dirname], for [i] from [path.length - 1] down to 1:
    the index of the slash that ends the directory part, if any. *)
Fixpoint dirname_loop (path : string) (i : nat) (matchedSlash : bool)
    : option nat :=
  match i with
  | O => None
  | S i' =>
      if slash_at path i then
        if matchedSlash then dirname_loop path i' matchedSlash else Some i
      else dirname_loop path i' false
  end.

(** [path.dirname(path)] *)
Definition dirname (path : string) : string :=
  match path with
  | EmptyString => "."
  | String c _ =>
      let hasRoot := is_slash c in
      match dirname_loop path (String.length path - 1) true with
      | None => if hasRoot then "/" else "."
      | Some e =>
          if hasRoot && Nat.eqb e 1 then "//" else String.substring 0 e path
      end
  end.

(** The state of the loop of [path.extname]; [None] stands for [-1] in
    [startDot] and [end], and [preDotState] is one of 0, 1 and -1. *)
Record ext_state := {
  startDot : option nat;
  startPart : nat;
  end_ : option nat;
  matchedSlash : bool;
  preDotState : Z
}.

Definition ext_init : ext_state :=
  {| startDot := None; startPart := 0; end_ := None;
     matchedSlash := true; preDotState := 0 |}.

(** The loop runs [i] from [path.length - 1] down to 0; [n] is [i + 1]. *)
Fixpoint extname_loop (path : string) (n : nat) (st : ext_state) : ext_state :=
  match n with
  | O => st
  | S i =>
      match charAt path i with
      | None => st
      | Some code =>
          if is_slash code then
            if matchedSlash st then extname_loop path i st
            else {| startDot := startDot st; startPart := i + 1;
                    end_ := end_ st; matchedSlash := matchedSlash st;
                    preDotState := preDotState st |}
          else
            let st1 :=
              match end_ st with
              | None => {| startDot := startDot st; startPart := startPart st;
                           end_ := Some (i + 1); matchedSlash := false;
                           preDotState := preDotState st |}
              | Some _ => st
              end in
            let st2 :=
              if is_dot code then
                match startDot st1 with
                | None => {| startDot := Some i; startPart := startPart st1;
                             end_ := end_ st1; matchedSlash := matchedSlash st1;
                             preDotState := preDotState st1 |}
                | Some _ =>
                    {| startDot := startDot st1; startPart := startPart st1;
                       end_ := end_ st1; matchedSlash := matchedSlash st1;
                       preDotState := 1 |}
                end
              else
                match startDot st1 with
                | Some _ =>
                    {| startDot := startDot st1; startPart := startPart st1;
                       end_ := end_ st1; matchedSlash := matchedSlash st1;
                       preDotState := (-1) |}
                | None => st1
                end in
            extname_loop path i st2
      end
  end.

(** [path.extname(path)] *)
Definition extname (path : string) : string :=
  let st := extname_loop path (String.length path) ext_init in
  match startDot st, end_ st with
  | Some sd, Some e =>
      if Z.eqb (preDotState st) 0
         || (Z.eqb (preDotState st) 1 && Nat.eqb sd (e - 1)
             && Nat.eqb sd (startPart st + 1))
      then EmptyString
      else String.substring sd (e - sd) path
  | _, _ => EmptyString
  end.

(** The segments two lists do not share at their front. *)
Fixpoint drop_common (from to : list string) : list string * list string :=
  match from, to with
  | f :: from', t :: to' =>
      if String.eqb f t then drop_common from' to' else (from, to)
  | _, _ => (from, to)
  end.

(** The segments of an absolute normalized path, [[]] for the root. *)
Definition abs_segments (p : string) : list string :=
  normalizeSegs false [] (split p).

(** [path.relative(from, to)].  Both arguments are resolved first; with an
    absolute [cwd] the two results are absolute and normalized, and the
    answer climbs out of what is left of [from] and descends into what is
    left of [to]. *)
Definition relative (cwd : string) (from to : string) : string :=
  if String.eqb from to then EmptyString
  else
    let from' := resolve cwd [from] in
    let to' := resolve cwd [to] in
    if String.eqb from' to' then EmptyString
    else
      let '(up, down) := drop_common (abs_segments from') (abs_segments to') in
      join (map (fun _ => "..") up ++ down).

End Path.

(* ===================================================================== *)
(** ** Values, errors and the file system interface *)
(* ===================================================================== *)

(** What a hook can throw: a [TypeError] of Node's argument validation, an
    error of an [fs] call, or the rejection of the compiler's promise. *)
Inductive error :=
  | TypeError (what : string)
  | FsError (code path : string)
  | CompileError (msg : string).

Inductive Result (A : Type) :=
  | Ok (a : A)
  | Throw (e : error).
Arguments Ok {A} a.
Arguments Throw {A} e.

(** The fields of [fs.Stats] the plugin reads.  [mtimeMs] is a finite
    double; doubles are integer multiples of one smallest unit and compare
    as those integers do, so the timestamp is an integer number of units. *)
Record Stats := { st_isFile : bool; st_mtimeMs : Z }.

(** The synchronous [fs] calls of the plugin over an abstract file system
    state.  [fs_stat] answers [Ok None] when there is no entry;
    [fs_mkdir] is [mkdirSync(p, { recursive: true })]. *)
Class FileSystem (FS : Type) := {
  fs_stat : FS -> string -> Result (option Stats);
  fs_read : FS -> string -> Result string;
  fs_mkdir : FS -> string -> Result FS;
  fs_write : FS -> string -> string -> Result FS
}.

(** The calls that leave the plugin. *)
Inductive Event :=
  | EvStat (p : string)
  | EvReadFile (p : string)
  | EvMkdir (p : string)
  | EvWriteFile (p data : string)
  | EvCompile (code inFile : string).

Definition is_compile (e : Event) : bool :=
  match e with EvCompile _ _ => true | _ => false end.
Definition is_write (e : Event) : bool :=
  match e with EvWriteFile _ _ | EvMkdir _ => true | _ => false end.
Definition is_writeFile (e : Event) : bool :=
  match e with EvWriteFile _ _ => true | _ => false end.

(** What [resolveId] returns: [null], [undefined] (the function falls off
    its end) or a path. *)
Inductive ResolveResult :=
  | RNull
  | RUndefined
  | RId (path : string).

(** What [load] resolves to: [null] or [{ code, map: null }]. *)
Inductive LoadResult :=
  | LNull
  | LCode (code : string).

(** The closure variables of [viteSquint].  The entries of the two objects
    are finite maps; what a lookup finds under a key without entry,
    [undefined] or a member of [Object.prototype], is settled by
    [inherited_name] where a hook reads them.  The keys the hooks write
    are paths, which never are [__proto__]. *)
Record Plugin := {
  outputDir : string;
  projectRoot : option string;
  srcFileMap : gmap string (string * Z);
  compiledFileMap : gmap string string
}.

Definition set_projectRoot (r : string) (pl : Plugin) : Plugin :=
  {| outputDir := outputDir pl; projectRoot := Some r;
     srcFileMap := srcFileMap pl; compiledFileMap := compiledFileMap pl |}.

(** [srcFileMap[src] = [out, t]] *)
Definition set_srcFile (src out : string) (t : Z) (pl : Plugin) : Plugin :=
  {| outputDir := outputDir pl; projectRoot := projectRoot pl;
     srcFileMap := <[src := (out, t)]> (srcFileMap pl);
     compiledFileMap := compiledFileMap pl |}.

(** [compiledFileMap[out] = src] *)
Definition set_compiledFile (out src : string) (pl : Plugin) : Plugin :=
  {| outputDir := outputDir pl; projectRoot := projectRoot pl;
     srcFileMap := srcFileMap pl;
     compiledFileMap := <[out := src]> (compiledFileMap pl) |}.

(** [viteSquint(opts)]: [opts.outputDir || "squint_out"], no project root
    yet and two empty maps. *)
Definition viteSquint (opts_outputDir : option string) : Plugin :=
  {| outputDir := JsString.or_else opts_outputDir "squint_out";
     projectRoot := None;
     srcFileMap := ∅;
     compiledFileMap := ∅ |}.

(** [configResolved(config)] with [root] the value of [config.root]. *)
Definition configResolved (root : string) (pl : Plugin) : Plugin :=
  set_projectRoot root pl.

(** [isLibraryImport] *)
Definition isLibraryImport (importPath : string) : bool :=
  negb (JsString.startsWith "." importPath || JsString.startsWith "/" importPath).

(** [hasExtension] *)
Definition hasExtension (filePath : string) : bool :=
  Nat.ltb 0 (String.length (Path.extname filePath)).

(** [`${projectRoot}/${outputDir}/${relPath}`] with [relPath] the path of
    the source below the project root, [.cljs] replaced by [.jsx]. *)
Definition outPathOf (cwd root outDir srcFileAbsPath : string) : string :=
  let relPath := JsString.replace_cljs (Path.relative cwd root srcFileAbsPath) in
  root ++ "/" ++ outDir ++ "/" ++ relPath.

(** [srcFileMap[srcFile]?.[1] || 0] *)
Definition modTimeOf (pl : Plugin) (srcFile : string) : Z :=
  match srcFileMap pl !! srcFile with
  | Some (_, t) => t
  | None => 0
  end.

(* ===================================================================== *)
(** ** The hooks *)
(* ===================================================================== *)

Section Hooks.

Context {FS : Type} `{FileSystem FS}.

(** [process.cwd()] *)
Variable cwd : string.

(** The plugin, the file system and the calls made so far, latest first. *)
Record World := {
  plugin : Plugin;
  fs : FS;
  trace : list Event
}.

Definition M (A : Type) : Type := World -> Result A * World.

Definition ret {A} (a : A) : M A := fun w => (Ok a, w).
Definition throw {A} (e : error) : M A := fun w => (Throw e, w).
Definition bind {A B} (c : M A) (k : A -> M B) : M B :=
  fun w => match c w with
           | (Ok a, w') => k a w'
           | (Throw e, w') => (Throw e, w')
           end.

Notation "'do' x <- c ; k" := (bind c (fun x => k))
  (at level 10, x name, c at level 100, k at level 200).
Notation "'run' c ; k" := (bind c (fun _ => k))
  (at level 10, c at level 100, k at level 200).

Definition getPlugin : M Plugin := fun w => (Ok (plugin w), w).
Definition modifyPlugin (f : Plugin -> Plugin) : M unit :=
  fun w => (Ok tt, {| plugin := f (plugin w); fs := fs w; trace := trace w |}).
Definition emit (e : Event) : M unit :=
  fun w => (Ok tt, {| plugin := plugin w; fs := fs w; trace := e :: trace w |}).
Definition liftResult {A} (r : Result A) : M A := fun w => (r, w).
Definition getFs : M FS := fun w => (Ok (fs w), w).
Definition putFs (f : FS) : M unit :=
  fun w => (Ok tt, {| plugin := plugin w; fs := f; trace := trace w |}).

(** [fs.statSync(p, { throwIfNoEntry: false })] *)
Definition statSync_noThrow (p : string) : M (option Stats) :=
  run emit (EvStat p) ;
  do f <- getFs;
  liftResult (fs_stat f p).

(** [fs.statSync(p)]: a missing entry throws. *)
Definition statSync (p : string) : M Stats :=
  do o <- statSync_noThrow p;
  match o with
  | Some st => ret st
  | None => throw (FsError "ENOENT" p)
  end.

(** [fs.readFileSync(p, "utf-8")] *)
Definition readFileSync (p : string) : M string :=
  run emit (EvReadFile p) ;
  do f <- getFs;
  liftResult (fs_read f p).

(** [fs.mkdirSync(p, { recursive: true })] *)
Definition mkdirSync (p : string) : M unit :=
  run emit (EvMkdir p) ;
  do f <- getFs;
  do f' <- liftResult (fs_mkdir f p);
  putFs f'.

(** [fs.writeFileSync(p, data)] *)
Definition writeFileSync (p data : string) : M unit :=
  run emit (EvWriteFile p data) ;
  do f <- getFs;
  do f' <- liftResult (fs_write f p data);
  putFs f'.

(** [isFile]: [stats?.isFile()] is [undefined] without an entry, which the
    caller's [if] takes as false. *)
Definition isFile (filePath : string) : M bool :=
  do stats <- statSync_noThrow filePath;
  ret (match stats with Some st => st_isFile st | None => false end).

(** [dirname(srcFile || importer)] with [srcFile = compiledFileMap[importer]],
    for an importer under which the lookup finds an entry or nothing;
    [resolveIdHook] below has the other importers. *)
Definition baseDir (pl : Plugin) (importer : string) : string :=
  Path.dirname (JsString.or_else (compiledFileMap pl !! importer) importer).

(** Lines 47 to 57 of [resolveId]: the specifier after the probe for a
    sibling [.cljs] file. *)
Definition candidate (id importer : string) : M string :=
  do pl <- getPlugin;
  let absPath := Path.resolve cwd [baseDir pl importer; id] in
  if negb (hasExtension id) then
    let resolveCljsFile := absPath ++ ".cljs" in
    do found <- isFile resolveCljsFile;
    if found then ret resolveCljsFile else ret id
  else ret id.

(** [path.relative(projectRoot, _)] validates its arguments: before
    [configResolved] the root is [undefined] and the call throws. *)
Definition getProjectRoot : M string :=
  do pl <- getPlugin;
  match projectRoot pl with
  | Some r => ret r
  | None => throw (TypeError "from")
  end.

(** [resolveId(id, importer, options)], [scan] being [options.scan]. *)
Definition resolveId (id importer : string) (scan : bool) : M ResolveResult :=
  if scan then ret RNull
  else
    do pl <- getPlugin;
    let srcFile := compiledFileMap pl !! importer in
    let absPath := Path.resolve cwd [baseDir pl importer; id] in
    do id' <- candidate id importer;
    if JsString.test_cljs id' then
      let srcFileAbsPath := Path.resolve cwd [baseDir pl importer; id'] in
      do root <- getProjectRoot;
      let outPath := outPathOf cwd root (outputDir pl) srcFileAbsPath in
      run modifyPlugin (set_srcFile srcFileAbsPath outPath 0) ;
      run modifyPlugin (set_compiledFile outPath srcFileAbsPath) ;
      ret (RId outPath)
    else if negb (JsString.test_cljs id') && JsString.truthy_opt srcFile then
      if negb (isLibraryImport id') then ret (RId absPath)
      else ret RUndefined
    else ret RUndefined.

(** [srcFile || importer] of line 49 when it is a string, for any importer
    the host passes: a string, or [undefined] for an entry module, which
    reads the key [undefined].  The value is no string when the lookup
    finds an inherited member, or finds nothing for an [undefined]
    importer. *)
Definition importerBase (pl : Plugin) (importer : option string) : option string :=
  match importer with
  | Some i =>
      match compiledFileMap pl !! i with
      | Some srcFile => Some (if JsString.truthy srcFile then srcFile else i)
      | None => if inherited_name i then None else Some i
      end
  | None =>
      match compiledFileMap pl !! "undefined" with
      | Some srcFile => if JsString.truthy srcFile then Some srcFile else None
      | None => None
      end
  end.

(** [resolveId(id, importer, options)] with any importer.  Outside the
    scan [path.dirname] validates its argument first and throws on what is
    no string; otherwise the call is [resolveId], an [undefined] importer
    standing as the key [undefined] it reads. *)
Definition resolveIdHook (id : string) (importer : option string)
    (scan : bool) : M ResolveResult :=
  if scan then ret RNull
  else
    do pl <- getPlugin;
    match importerBase pl importer with
    | None => throw (TypeError "path")
    | Some _ =>
        resolveId id (match importer with Some i => i | None => "undefined" end)
          false
    end.

(** [load] awaits the compiler once.  [load_begin] is the part of the body
    that runs up to the call of [compileString]; it either finishes or
    stops at the [await] with what the rest of the body needs. *)
Record Pending := {
  p_id : string;
  p_srcFile : string;
  p_mtimeMs : Z;
  p_code : string
}.

Inductive LoadStep :=
  | LoadDone (r : LoadResult)
  | LoadAwait (p : Pending).

(** Lines 101 to 104: read the artifact back. *)
Definition load_finish (id : string) : M LoadResult :=
  do code <- readFileSync id;
  ret (LCode code).

Definition load_begin (id : string) : M LoadStep :=
  do pl <- getPlugin;
  match compiledFileMap pl !! id with
  | None =>
      (* an inherited member is truthy, and [fs.statSync] rejects it *)
      if inherited_name id then throw (TypeError "path")
      else ret (LoadDone LNull)
  | Some srcFile =>
      if negb (JsString.truthy srcFile) then ret (LoadDone LNull)
      else
        do stats <- statSync srcFile;
        let modTime := modTimeOf pl srcFile in
        if Z.ltb modTime (st_mtimeMs stats) then
          do code <- readFileSync srcFile;
          run emit (EvCompile code srcFile) ;
          ret (LoadAwait {| p_id := id; p_srcFile := srcFile;
                            p_mtimeMs := st_mtimeMs stats; p_code := code |})
        else
          do r <- load_finish id;
          ret (LoadDone r)
  end.

(** The rest of the body once the compiler's promise has settled with
    [compiled]: a rejection is rethrown by the [await]; otherwise the
    artifact is written, the record advanced and the artifact read back. *)
Definition load_resume (p : Pending) (compiled : Result string) : M LoadResult :=
  do javascript <- liftResult compiled;
  run mkdirSync (Path.dirname (p_id p)) ;
  run writeFileSync (p_id p) javascript ;
  run modifyPlugin (set_srcFile (p_srcFile p) (p_id p) (p_mtimeMs p)) ;
  load_finish (p_id p).

(** A [load] that nothing interleaves with, [compileString] being the
    outcome of the compiler on a source text and its [in-file]. *)
Definition load (compileString : string -> string -> Result string)
    (id : string) : M LoadResult :=
  do s <- load_begin id;
  match s with
  | LoadDone r => ret r
  | LoadAwait p => load_resume p (compileString (p_code p) (p_srcFile p))
  end.

(** The part of a load after its [await], for a load that may already have
    finished or failed. *)
Definition load_settle (s : Result LoadStep) (compiled : Result string)
    : M LoadResult :=
  match s with
  | Ok (LoadDone r) => ret r
  | Ok (LoadAwait p) => load_resume p compiled
  | Throw e => throw e
  end.

(** Two calls of [load(id)] made before either compilation has settled:
    both bodies run up to their [await], then each continues with the
    outcome of its own compilation. *)
Definition load_twice (id : string) (compiledA compiledB : Result string)
    (w : World) : Result LoadResult * Result LoadResult * World :=
  let '(sA, w1) := load_begin id w in
  let '(sB, w2) := load_begin id w1 in
  let '(rA, w3) := load_settle sA compiledA w2 in
  let '(rB, w4) := load_settle sB compiledB w3 in
  (rA, rB, w4).

(** What can happen to the world during one session of the plugin, after
    [configResolved]: the host calls [resolveId], it runs a [load] up to
    its [await] or from it, with any outcome of the compiler, or the file
    system changes under the plugin. *)
Inductive session_step : World -> World -> Prop :=
  | step_resolveId id importer scan w :
      session_step w (snd (resolveId id importer scan w))
  | step_load_begin id w :
      session_step w (snd (load_begin id w))
  | step_load_resume p compiled w :
      session_step w (snd (load_resume p compiled w))
  | step_files w f t :
      session_step w {| plugin := plugin w; fs := f; trace := t |}.

(** The calls made between an earlier world [w] and a later one [w']:
    the trace grows at its head. *)
Definition new_events (w w' : World) : list Event :=
  firstn (length (trace w') - length (trace w)) (trace w').

(** The world [w] after the calls [evs], latest first. *)
Definition add_events (evs : list Event) (w : World) : World :=
  {| plugin := plugin w; fs := fs w; trace := (evs ++ trace w)%list |}.

End Hooks.

(** [{ code, map: null }] out of the artifact read back, or its error. *)
Definition loadResultOf (r : Result string) : Result LoadResult :=
  match r with
  | Ok code => Ok (LCode code)
  | Throw e => Throw e
  end.

Arguments World FS : clear implicits.
Arguments M FS A : clear implicits.

Definition count_events (f : Event -> bool) (l : list Event) : nat :=
  length (List.filter f l).

(* ===================================================================== *)
(** ** The hot-update hook *)
(* ===================================================================== *)

(** The part of the host's module graph the hook calls:
    [server.moduleGraph.getModuleById] and [server.moduleGraph.onFileChange]. *)
Class ModuleGraph (G Mod : Type) := {
  getModuleById : G -> string -> option Mod;
  onFileChange : G -> string -> G
}.

Section HotUpdate.

Context {G Mod : Type} `{ModuleGraph G Mod}.

(** [handleHotUpdate({ file, server, modules })]: the list the hook returns,
    [None] when it falls off its end and returns [undefined], and the
    module graph it leaves.  Destructuring [srcFileMap[file] || []] throws
    when the lookup finds an inherited member, which is not iterable. *)
Definition handleHotUpdate (pl : Plugin) (file : string) (server : G)
    (modules : list Mod) : Result (option (list Mod)) * G :=
  match srcFileMap pl !! file with
  | Some (compiledFile, _) =>
      if JsString.truthy compiledFile then
        match getModuleById server compiledFile with
        | Some module =>
            (Ok (Some (modules ++ [module])%list),
             onFileChange server compiledFile)
        | None => (Ok (Some modules), server)
        end
      else (Ok None, server)
  | None =>
      if inherited_name file then (Throw (TypeError "iterable"), server)
      else (Ok None, server)
  end.

End HotUpdate.

(* ===================================================================== *)
(** ** An in-memory file system *)
(* ===================================================================== *)

Module MemFs.

Inductive Node :=
  | File (content : string) (mtimeMs : Z)
  | Dir.

(** The entries by path, and the clock that stamps written files. *)
Record t := {
  nodes : gmap string Node;
  clock : Z
}.

Definition stat (f : t) (p : string) : Result (option Stats) :=
  match nodes f !! p with
  | Some (File _ m) => Ok (Some {| st_isFile := true; st_mtimeMs := m |})
  | Some Dir => Ok (Some {| st_isFile := false; st_mtimeMs := 0 |})
  | None => Ok None
  end.

Definition read (f : t) (p : string) : Result string :=
  match nodes f !! p with
  | Some (File c _) => Ok c
  | Some Dir => Throw (FsError "EISDIR" p)
  | None => Throw (FsError "ENOENT" p)
  end.

(** The directory and the directories above it, nearest first. *)
Fixpoint ancestors (fuel : nat) (p : string) : list string :=
  match fuel with
  | O => [p]
  | S fuel' =>
      let d := Path.dirname p in
      if String.eqb d p then [p] else p :: ancestors fuel' d
  end.

Definition is_file_node (o : option Node) : bool :=
  match o with Some (File _ _) => true | _ => false end.

Definition mkdir (f : t) (p : string) : Result t :=
  let dirs := ancestors (String.length p) p in
  if existsb (fun d => is_file_node (nodes f !! d)) dirs
  then Throw (FsError "EEXIST" p)
  else Ok {| nodes := fold_right (fun d m => <[d := Dir]> m) (nodes f) dirs;
             clock := clock f |}.

Definition write (f : t) (p data : string) : Result t :=
  match nodes f !! p with
  | Some Dir => Throw (FsError "EISDIR" p)
  | _ =>
      match nodes f !! Path.dirname p with
      | Some Dir =>
          Ok {| nodes := <[p := File data (clock f)]> (nodes f);
                clock := (clock f + 1)%Z |}
      | _ => Throw (FsError "ENOENT" p)
      end
  end.

End MemFs.

#[export] Instance MemFs_FileSystem : FileSystem MemFs.t := {
  fs_stat := MemFs.stat;
  fs_read := MemFs.read;
  fs_mkdir := MemFs.mkdir;
  fs_write := MemFs.write
}.

(** A module graph that holds the ids of its live modules, and counts the
    invalidations asked of it. *)
Module ListGraph.

Record t := {
  live : list string;
  invalidated : list string
}.

Definition get (g : t) (id : string) : option string :=
  if existsb (String.eqb id) (live g) then Some id else None.

Definition change (g : t) (id : string) : t :=
  {| live := live g; invalidated := id :: invalidated g |}.

End ListGraph.

#[export] Instance ListGraph_ModuleGraph : ModuleGraph ListGraph.t string := {
  getModuleById := ListGraph.get;
  onFileChange := ListGraph.change
}.

(* ===================================================================== *)
(** ** A small project *)
(* ===================================================================== *)

(** The project of the scenarios: root [/p], the sources [/p/src/a.cljs]
    and [/p/src/b.cljs], the output directory [out]. *)
Module Demo.

Definition files : MemFs.t :=
  {| MemFs.nodes :=
       <["/p/src/a.cljs" := MemFs.File "(ns a)" 5]>
         (<["/p/src/b.cljs" := MemFs.File "(ns b)" 7]>
            (<["/p/src" := MemFs.Dir]> (<["/p" := MemFs.Dir]> ∅)));
     MemFs.clock := 100 |}.

(** The plugin after [viteSquint({ outputDir: "out" })] and
    [configResolved({ root: "/p" })]. *)
Definition world0 : World MemFs.t :=
  {| plugin := configResolved "/p" (viteSquint (Some "out"));
     fs := files; trace := [] |}.

(** A compiler that accepts everything, and one that rejects everything. *)
Definition accept (code inFile : string) : Result string :=
  Ok ("js:" ++ code).
Definition reject (code inFile : string) : Result string :=
  Throw (CompileError "unreadable form").

(** [a.cljs] resolved from the page, then [./b] from the compiled [a]. *)
Definition world1 : World MemFs.t :=
  snd (resolveId "/p" "/p/src/a.cljs" "/p/index.html" false world0).
Definition world2 : World MemFs.t :=
  snd (resolveId "/p" "./b" "/p/out/src/a.jsx" false world1).

(** [a] loaded once. *)
Definition world3 : World MemFs.t :=
  snd (load accept "/p/out/src/a.jsx" world2).

(** [a.cljs] resolved again, this time from a module next to it. *)
Definition world4 : World MemFs.t :=
  snd (resolveId "/p" "./a.cljs" "/p/src/main.js" false world3).

(** A module graph in which the compiled [a] is live. *)
Definition graph : ListGraph.t :=
  {| ListGraph.live := ["/p/out/src/a.jsx"]; ListGraph.invalidated := [] |}.

End Demo.

(* ===================================================================== *)
(** ** Notions used in the statements *)
(* ===================================================================== *)

(** A segment that normalization keeps: not empty, not [.] and not [..]. *)
Definition plain_segment (s : string) : bool :=
  negb (String.eqb s "") && negb (String.eqb s ".") && negb (String.eqb s "..").

Fixpoint has_slash (s : string) : bool :=
  match s with
  | EmptyString => false
  | String c s' => Path.is_slash c || has_slash s'
  end.

(** What follows the last slash of a path. *)
Definition last_segment (p : string) : string := List.last (Path.split p) "".

(** Every entry of [compiledFileMap] has its counterpart in [srcFileMap],
    and its key is the output path of its source. *)
Definition registry_ok (cwd : string) (pl : Plugin) : Prop :=
  forall out src,
    compiledFileMap pl !! out = Some src ->
    (exists root, projectRoot pl = Some root
                  /\ out = outPathOf cwd root (outputDir pl) src)
    /\ exists t, srcFileMap pl !! src = Some (out, t).

Section Async.

Context {FS : Type} `{FileSystem FS}.
Variable cwd : string.

(** A load in flight was started on an entry of [compiledFileMap]. *)
Definition pending_ok (pl : Plugin) (p : Pending) : Prop :=
  exists root, projectRoot pl = Some root
               /\ p_id p = outPathOf cwd root (outputDir pl) (p_srcFile p).

(** The loads that stopped at their [await], beside the world: a load
    that stops joins them, and any of them may continue, with any outcome
    of the compiler, between any two other calls. *)
Inductive async_step :
    World FS * list Pending -> World FS * list Pending -> Prop :=
  | async_resolveId id importer scan w ps :
      async_step (w, ps) (snd (resolveId cwd id importer scan w), ps)
  | async_load_begin id w ps :
      async_step (w, ps)
        (snd (load_begin id w),
         match fst (load_begin id w) with
         | Ok (LoadAwait p) => p :: ps
         | _ => ps
         end)
  | async_load_resume p compiled w ps :
      In p ps ->
      async_step (w, ps) (snd (load_resume p compiled w), ps)
  | async_files w ps f t :
      async_step (w, ps) ({| plugin := plugin w; fs := f; trace := t |}, ps).

(** The state the registries are to be in, with the loads in flight. *)
Definition consistent (x : World FS * list Pending) : Prop :=
  registry_ok cwd (plugin (fst x))
  /\ Forall (pending_ok (plugin (fst x))) (snd x).

End Async.

(* ===================================================================== *)
(** ** More states of the small project *)
(* ===================================================================== *)

(** A file system that refuses every call, as one without permissions
    does. *)
Module LockedFs.

Definition denied {A} (p : string) : Result A := Throw (FsError "EACCES" p).

End LockedFs.

#[export] Instance LockedFs_FileSystem : FileSystem unit := {
  fs_stat := fun _ p => LockedFs.denied p;
  fs_read := fun _ p => LockedFs.denied p;
  fs_mkdir := fun _ p => LockedFs.denied p;
  fs_write := fun _ p _ => LockedFs.denied p
}.

Module Cases.

(** The plugin before [configResolved]. *)
Definition unconfigured : World MemFs.t :=
  {| plugin := viteSquint (Some "out"); fs := Demo.files; trace := [] |}.

(** The project after [a.cljs] and [b.cljs] have been deleted. *)
Definition deleted : World MemFs.t :=
  {| plugin := plugin Demo.world2;
     fs := {| MemFs.nodes := <["/p/src" := MemFs.Dir]> (<["/p" := MemFs.Dir]> ∅);
              MemFs.clock := 200 |};
     trace := [] |}.

(** The project with a source [e.cljs] whose modification time is 0. *)
Definition epoch : World MemFs.t :=
  {| plugin := configResolved "/p" (viteSquint (Some "out"));
     fs := {| MemFs.nodes :=
                <["/p/src/e.cljs" := MemFs.File "(ns e)" 0]>
                  (<["/p/src" := MemFs.Dir]> (<["/p" := MemFs.Dir]> ∅));
              MemFs.clock := 100 |};
     trace := [] |}.


(** The load of [a] that stops at the compiler in [Demo.world2]. *)
Definition pending_a : Pending :=
  {| p_id := "/p/out/src/a.jsx"; p_srcFile := "/p/src/a.cljs";
     p_mtimeMs := 5; p_code := "(ns a)" |}.

(** [a.cljs] edited at time 9 while the load of [Demo.world2] waits for
    the compiler, and loaded again from start to end. *)
Definition edited : World MemFs.t :=
  {| plugin := plugin Demo.world2;
     fs := {| MemFs.nodes :=
                <["/p/src/a.cljs" := MemFs.File "(ns a) (def x 1)" 9]>
                  (MemFs.nodes (fs Demo.world2));
              MemFs.clock := MemFs.clock (fs Demo.world2) |};
     trace := trace Demo.world2 |}.
Definition reloaded : World MemFs.t :=
  snd (load Demo.accept "/p/out/src/a.jsx" edited).

End Cases.


(* ===================================================================== *)
(** ** The path functions on examples *)
(* ===================================================================== *)

Example dirname_ex1 : Path.dirname "/p/out/src/a.jsx" = "/p/out/src".
Proof. reflexivity. Qed.
Example dirname_ex2 :
  map Path.dirname ["/a"; "a"; ""; "/a/b/"; "//a"; "/"; "a/b//"; "a//b"]
  = ["/"; "."; "."; "/a"; "//"; "/"; "a"; "a/"].
Proof. reflexivity. Qed.
Example extname_ex :
  map Path.extname ["./b"; "a.cljs"; ".bashrc"; "a."; ".."; "a.b/"; "x/.cljs";
                    "a.."; "/p/src/x.y.cljs"; "."; ""; "a.b/c"]
  = [""; ".cljs"; ""; "."; ""; ".b"; ""; "."; ".cljs"; ""; ""; ""].
Proof. reflexivity. Qed.
Example resolve_ex :
  map (Path.resolve "/w") [["/p/src"; "./b"]; ["/p/src"; "../x"];
                           ["/a"; "/b/../c/"]; ["x"]; [""; ""]; ["/.."; "a"];
                           ["/p/src"; "b.cljs"]]
  = ["/p/src/b"; "/p/x"; "/c"; "/w/x"; "/w"; "/a"; "/p/src/b.cljs"].
Proof. reflexivity. Qed.
Example relative_ex :
  map (fun '(a, b) => Path.relative "/w" a b)
      [("/p", "/p/src/a.cljs"); ("/p", "/q/a.cljs"); ("/", "/foo");
       ("/foo/bar", "/"); ("/foo/bar", "/foo/barbaz"); ("/p/", "/p")]
  = ["src/a.cljs"; "../q/a.cljs"; "foo"; "../.."; "../barbaz"; ""].
Proof. reflexivity. Qed.

(* ===================================================================== *)
(** ** Properties of the hooks *)
(* ===================================================================== *)

(** The path functions and the tests on strings are kept folded in the
    proofs about the hooks; the examples evaluate them. *)
Arguments Path.resolve : simpl never.
Arguments Path.dirname : simpl never.
Arguments Path.extname : simpl never.
Arguments Path.relative : simpl never.
Arguments hasExtension : simpl never.
Arguments isLibraryImport : simpl never.
Arguments outPathOf : simpl never.
Arguments baseDir : simpl never.
Arguments modTimeOf : simpl never.
Arguments JsString.test_cljs : simpl never.
Arguments JsString.replace_cljs : simpl never.
Arguments JsString.truthy_opt : simpl never.
Arguments inherited_name : simpl never.
Arguments importerBase : simpl never.
Arguments candidate : simpl never.
Arguments resolveId : simpl never.
Arguments load_begin : simpl never.
Arguments load_resume : simpl never.
Arguments load_finish : simpl never.
Arguments load : simpl never.
Arguments new_events : simpl never.
Arguments count_events : simpl never.

Ltac unfold_m :=
  unfold bind, ret, throw, getPlugin, modifyPlugin, emit, liftResult,
    getFs, putFs in *.

Section HookProps.

Context {FS : Type} `{FileSystem FS}.
Variable cwd : string.

Implicit Types (w : World FS) (id importer : string).

(** The probe of [candidate] only adds to the trace. *)
Lemma candidate_frame id importer w r w' :
  candidate cwd id importer w = (r, w') ->
  plugin w' = plugin w /\ fs w' = fs w.
Proof.
  unfold candidate, isFile, statSync_noThrow. unfold_m. cbn.
  destruct (hasExtension id); cbn.
  - intros [= <- <-]. auto.
  - destruct (fs_stat _ _) as [[st|]|e]; cbn.
    + destruct (st_isFile st); intros [= <- <-]; auto.
    + intros [= <- <-]; auto.
    + intros [= <- <-]; auto.
Qed.

(** A specifier with an extension is its own candidate, and no call leaves
    the plugin. *)
Lemma candidate_hasExtension id importer w :
  hasExtension id = true -> candidate cwd id importer w = (Ok id, w).
Proof.
  intros Hext. unfold candidate. unfold_m. cbn. rewrite Hext. cbn.
  destruct w; reflexivity.
Qed.

(** [resolveId] outside the scan, by the outcome of the probe. *)
Lemma resolveId_cases id importer w :
  resolveId cwd id importer false w =
  match candidate cwd id importer w with
  | (Throw e, w0) => (Throw e, w0)
  | (Ok id', w0) =>
      if JsString.test_cljs id' then
        match projectRoot (plugin w0) with
        | None => (Throw (TypeError "from"), w0)
        | Some root =>
            let src := Path.resolve cwd [baseDir (plugin w) importer; id'] in
            let out := outPathOf cwd root (outputDir (plugin w)) src in
            (Ok (RId out),
             {| plugin := set_compiledFile out src
                            (set_srcFile src out 0 (plugin w0));
                fs := fs w0; trace := trace w0 |})
        end
      else if JsString.truthy_opt (compiledFileMap (plugin w) !! importer) then
        if negb (isLibraryImport id')
        then (Ok (RId (Path.resolve cwd [baseDir (plugin w) importer; id])), w0)
        else (Ok RUndefined, w0)
      else (Ok RUndefined, w0)
  end.
Proof.
  unfold resolveId, getProjectRoot. unfold_m. cbn.
  destruct (candidate cwd id importer w) as [[id'|e] w0]; [|reflexivity].
  destruct (JsString.test_cljs id'); cbn.
  - destruct (projectRoot (plugin w0)); reflexivity.
  - destruct (JsString.truthy_opt _); [|reflexivity].
    destruct (isLibraryImport id'); reflexivity.
Qed.

(** C5: during the host's discovery scan ([options.scan] set) [resolveId]
    returns [null] for every specifier, importer and state, and the world
    it leaves is the one it was given: both registries are unchanged and
    no file system call was made (the trace did not grow). *)
Theorem resolveId_scan_noop id importer w :
  resolveId cwd id importer true w = (Ok RNull, w).
Proof. reflexivity. Qed.

(** C9, on the code: for an [id] without entry in [compiledFileMap],
    [load(id)] resolves to [null] and leaves the world as it was (no file
    system call, no compiler call, no registry touched) unless [id] names
    a member of [Object.prototype].  For such an [id] the lookup on the
    plain object finds the inherited member, the test of line 83 lets it
    pass, and [fs.statSync] throws a [TypeError]: the load fails instead
    of deferring, the world still as it was. *)
Theorem load_unregistered_id (compileString : string -> string -> Result string)
    id w :
  compiledFileMap (plugin w) !! id = None ->
  load compileString id w
  = (if inherited_name id then Throw (TypeError "path") else Ok LNull, w).
Proof.
  intros Hnone. unfold load, load_begin. unfold_m. cbn.
  rewrite Hnone. destruct (inherited_name id); reflexivity.
Qed.

(** C10: outside the scan, when the candidate of [resolveId] (the specifier
    after the probe) does not end in [.cljs], the call leaves the plugin
    state, hence [srcFileMap] and [compiledFileMap], as it was, whether it
    returns [undefined] or the absolute path; and a call that does change
    the plugin state is one whose candidate ends in [.cljs] and that
    returns the output path of that source. *)
Theorem resolveId_registry_frame id importer w r w' :
  resolveId cwd id importer false w = (r, w') ->
  (forall id' w0,
      candidate cwd id importer w = (Ok id', w0) ->
      JsString.test_cljs id' = false ->
      plugin w' = plugin w
      /\ (r = Ok RUndefined
          \/ r = Ok (RId (Path.resolve cwd [baseDir (plugin w) importer; id]))))
  /\ (plugin w' <> plugin w ->
      exists id' w0 root,
        candidate cwd id importer w = (Ok id', w0)
        /\ JsString.test_cljs id' = true
        /\ projectRoot (plugin w) = Some root
        /\ r = Ok (RId (outPathOf cwd root (outputDir (plugin w))
                          (Path.resolve cwd [baseDir (plugin w) importer; id'])))).
Proof.
  rewrite resolveId_cases.
  destruct (candidate cwd id importer w) as [[id'|e] w0] eqn:Hc.
  - destruct (candidate_frame _ _ _ _ _ Hc) as [Hpl Hfs].
    destruct (JsString.test_cljs id') eqn:Ht.
    + rewrite Hpl.
      destruct (projectRoot (plugin w)) as [root|] eqn:Hroot.
      * cbn. intros [= <- <-]. split.
        { intros id'' w0' [= <- <-]. congruence. }
        intros _. exists id', w0, root. auto.
      * intros [= <- <-]. split.
        { intros id'' w0' [= <- <-]. congruence. }
        intros Hne. contradiction.
    + intros Hres. split.
      * intros id'' w0' [= <- <-] _.
        destruct (JsString.truthy_opt _).
        -- destruct (negb _); injection Hres as <- <-; auto.
        -- injection Hres as <- <-; auto.
      * intros Hne. exfalso. apply Hne.
        destruct (JsString.truthy_opt _).
        -- destruct (negb _); injection Hres as <- <-; auto.
        -- injection Hres as <- <-; auto.
  - intros [= <- <-]. split.
    + intros id' w0' [=].
    + destruct (candidate_frame _ _ _ _ _ Hc) as [Hpl _]. intros Hne. contradiction.
Qed.

(** A specifier without extension whose sibling [.cljs] is a file becomes
    that file, at the price of one [statSync]. *)
Lemma candidate_probe_found id importer w st :
  hasExtension id = false ->
  fs_stat (fs w) (Path.resolve cwd [baseDir (plugin w) importer; id] ++ ".cljs")
    = Ok (Some st) ->
  st_isFile st = true ->
  candidate cwd id importer w =
    (Ok (Path.resolve cwd [baseDir (plugin w) importer; id] ++ ".cljs"),
     {| plugin := plugin w; fs := fs w;
        trace := EvStat (Path.resolve cwd [baseDir (plugin w) importer; id]
                           ++ ".cljs") :: trace w |}).
Proof.
  intros Hext Hstat Hfile.
  unfold candidate, isFile, statSync_noThrow. unfold_m. cbn.
  rewrite Hext. cbn. rewrite Hstat. cbn. rewrite Hfile. reflexivity.
Qed.

(** C1, as the code has it: [resolveId] stores the record [[outPath, 0]]
    for the source path whether or not the path was already present, so
    the timestamp of a known source is reset to 0; it is the value it had
    before the call exactly when that value was 0 already.  The output
    path of the record is the one the call returns. *)
Theorem resolveId_reregistration_resets
    id importer w id' w0 root src out0 t0 :
  candidate cwd id importer w = (Ok id', w0) ->
  JsString.test_cljs id' = true ->
  projectRoot (plugin w) = Some root ->
  Path.resolve cwd [baseDir (plugin w) importer; id'] = src ->
  srcFileMap (plugin w) !! src = Some (out0, t0) ->
  exists w',
    resolveId cwd id importer false w
      = (Ok (RId (outPathOf cwd root (outputDir (plugin w)) src)), w')
    /\ srcFileMap (plugin w') !! src
       = Some (outPathOf cwd root (outputDir (plugin w)) src, 0%Z)
    /\ (modTimeOf (plugin w') src = modTimeOf (plugin w) src <-> t0 = 0%Z).
Proof.
  intros Hc Ht Hroot Hsrc Hold.
  rewrite resolveId_cases, Hc, Ht.
  destruct (candidate_frame _ _ _ _ _ Hc) as [Hp _].
  rewrite Hp, Hroot, Hsrc. cbn. eexists. split; [reflexivity|].
  cbn. rewrite lookup_insert_eq. split; [reflexivity|].
  unfold modTimeOf. cbn. rewrite lookup_insert_eq, Hold. split; congruence.
Qed.


(** *** [load] *)

Lemma new_events_add evs w w' :
  trace w' = (evs ++ trace w)%list -> new_events w w' = evs.
Proof.
  intros Ht. unfold new_events. rewrite Ht, length_app.
  replace (length evs + length (trace w) - length (trace w)) with (length evs)
    by lia.
  rewrite firstn_app, firstn_all, Nat.sub_diag. cbn. apply app_nil_r.
Qed.

(** [load_begin] by the answers of the file system. *)
Lemma load_begin_cases id w :
  load_begin id w =
  match compiledFileMap (plugin w) !! id with
  | None =>
      (if inherited_name id then Throw (TypeError "path")
       else Ok (LoadDone LNull), w)
  | Some src =>
      if negb (JsString.truthy src) then (Ok (LoadDone LNull), w)
      else
        match fs_stat (fs w) src with
        | Throw e => (Throw e, add_events [EvStat src] w)
        | Ok None => (Throw (FsError "ENOENT" src), add_events [EvStat src] w)
        | Ok (Some st) =>
            if (modTimeOf (plugin w) src <? st_mtimeMs st)%Z then
              match fs_read (fs w) src with
              | Throw e => (Throw e, add_events [EvReadFile src; EvStat src] w)
              | Ok code =>
                  (Ok (LoadAwait {| p_id := id; p_srcFile := src;
                                    p_mtimeMs := st_mtimeMs st; p_code := code |}),
                   add_events [EvCompile code src; EvReadFile src; EvStat src] w)
              end
            else
              (match fs_read (fs w) id with
               | Ok code => Ok (LoadDone (LCode code))
               | Throw e => Throw e
               end,
               add_events [EvReadFile id; EvStat src] w)
        end
  end.
Proof.
  unfold load_begin, load_finish, statSync, statSync_noThrow, readFileSync.
  unfold_m. cbn.
  destruct (compiledFileMap (plugin w) !! id) as [src|];
    [|destruct (inherited_name id); reflexivity].
  destruct (negb (JsString.truthy src)); [reflexivity|]. cbn.
  destruct (fs_stat (fs w) src) as [[st|]|e]; cbn; try reflexivity.
  destruct (modTimeOf (plugin w) src <? st_mtimeMs st)%Z; cbn.
  - destruct (fs_read (fs w) src); reflexivity.
  - destruct (fs_read (fs w) id); reflexivity.
Qed.

(** [load_resume] by the outcome of the compiler and the answers of the
    file system. *)
Lemma load_resume_cases p compiled w :
  load_resume p compiled w =
  match compiled with
  | Throw e => (Throw e, w)
  | Ok javascript =>
      let dir := Path.dirname (p_id p) in
      match fs_mkdir (fs w) dir with
      | Throw e => (Throw e, add_events [EvMkdir dir] w)
      | Ok f1 =>
          match fs_write f1 (p_id p) javascript with
          | Throw e =>
              (Throw e,
               {| plugin := plugin w; fs := f1;
                  trace := EvWriteFile (p_id p) javascript :: EvMkdir dir
                           :: trace w |})
          | Ok f2 =>
              (loadResultOf (fs_read f2 (p_id p)),
               {| plugin := set_srcFile (p_srcFile p) (p_id p) (p_mtimeMs p)
                              (plugin w);
                  fs := f2;
                  trace := EvReadFile (p_id p)
                           :: EvWriteFile (p_id p) javascript :: EvMkdir dir
                           :: trace w |})
          end
      end
  end.
Proof.
  unfold load_resume, load_finish, mkdirSync, writeFileSync, readFileSync.
  unfold_m. cbn.
  destruct compiled as [javascript|e]; [|reflexivity].
  destruct (fs_mkdir (fs w) _) as [f1|e]; cbn; [|reflexivity].
  destruct (fs_write f1 _ _) as [f2|e]; cbn; [|reflexivity].
  destruct (fs_read f2 _); reflexivity.
Qed.

(** The hooks never assign [projectRoot] or [outputDir]. *)
Lemma session_step_keeps_config w w' :
  session_step cwd w w' ->
  projectRoot (plugin w') = projectRoot (plugin w)
  /\ outputDir (plugin w') = outputDir (plugin w).
Proof.
  destruct 1 as [id importer scan w | id w | p compiled w | w f t].
  - destruct scan; [cbn; auto|].
    rewrite resolveId_cases.
    destruct (candidate cwd id importer w) as [[id'|e] w0] eqn:Hc;
      destruct (candidate_frame _ _ _ _ _ Hc) as [Hpl _]; [|cbn; rewrite Hpl; auto].
    destruct (JsString.test_cljs id').
    + destruct (projectRoot (plugin w0)); cbn; rewrite Hpl; auto.
    + destruct (JsString.truthy_opt _); [destruct (negb _)|]; cbn; rewrite Hpl; auto.
  - rewrite load_begin_cases.
    destruct (compiledFileMap (plugin w) !! id) as [src|]; [|auto].
    destruct (negb _); [auto|].
    destruct (fs_stat _ _) as [[st|]|e]; [|auto..].
    destruct (_ <? _)%Z; [destruct (fs_read _ _)|]; auto.
  - rewrite load_resume_cases.
    destruct compiled as [js|e]; [|auto]. cbn.
    destruct (fs_mkdir _ _) as [f1|e]; [|auto].
    destruct (fs_write _ _ _) as [f2|e]; auto.
  - auto.
Qed.

Lemma session_keeps_config w w' :
  rtc (session_step cwd) w w' ->
  projectRoot (plugin w') = projectRoot (plugin w)
  /\ outputDir (plugin w') = outputDir (plugin w).
Proof.
  induction 1 as [w | w wmid w' Hstep _ IH]; [auto|].
  destruct (session_step_keeps_config _ _ Hstep) as [Hr Ho].
  destruct IH as [Hr' Ho']. split; congruence.
Qed.

(** C2: the output identity is a function of the project root, the output
    directory and the source path.  Take a call of [resolveId] outside the
    scan whose candidate resolves to the source path [src], and a second
    such call in any world the session reaches from there ([resolveId] and
    [load] calls, changes of the file system), on any specifier and
    importer, whose candidate resolves to [src] too: both return
    [outPathOf cwd root outputDir src]. *)
Theorem resolveId_outputId_deterministic
    id1 importer1 id2 importer2 w1 w2 id1' id2' w1a w2a root src :
  projectRoot (plugin w1) = Some root ->
  rtc (session_step cwd) w1 w2 ->
  candidate cwd id1 importer1 w1 = (Ok id1', w1a) ->
  JsString.test_cljs id1' = true ->
  Path.resolve cwd [baseDir (plugin w1) importer1; id1'] = src ->
  candidate cwd id2 importer2 w2 = (Ok id2', w2a) ->
  JsString.test_cljs id2' = true ->
  Path.resolve cwd [baseDir (plugin w2) importer2; id2'] = src ->
  fst (resolveId cwd id1 importer1 false w1)
    = Ok (RId (outPathOf cwd root (outputDir (plugin w1)) src))
  /\ fst (resolveId cwd id2 importer2 false w2)
     = fst (resolveId cwd id1 importer1 false w1).
Proof.
  intros Hr1 Hsession Hc1 Ht1 Hs1 Hc2 Ht2 Hs2.
  destruct (session_keeps_config _ _ Hsession) as [Hr2 Hout].
  rewrite Hr1 in Hr2.
  rewrite !resolveId_cases, Hc1, Hc2, Ht1, Ht2.
  destruct (candidate_frame _ _ _ _ _ Hc1) as [Hp1 _].
  destruct (candidate_frame _ _ _ _ _ Hc2) as [Hp2 _].
  rewrite Hp1, Hp2, Hr1, Hr2, Hs1, Hs2, Hout. cbn. auto.
Qed.


(** A load of a registered output whose source is not newer than its
    record only reads the output back. *)
Lemma load_fresh (compileString : string -> string -> Result string)
    id src w st :
  compiledFileMap (plugin w) !! id = Some src ->
  JsString.truthy src = true ->
  fs_stat (fs w) src = Ok (Some st) ->
  (modTimeOf (plugin w) src <? st_mtimeMs st)%Z = false ->
  load compileString id w
    = (loadResultOf (fs_read (fs w) id),
       add_events [EvReadFile id; EvStat src] w).
Proof.
  intros Hsrc Htr Hst Hlt. unfold load, bind.
  rewrite load_begin_cases, Hsrc, Htr, Hst, Hlt. cbn.
  destruct (fs_read (fs w) id); reflexivity.
Qed.


(** A load that stops at the compiler has only looked at the source: the
    plugin state and the file system are as before, in any world with
    these two the load stops at the compiler again with the same request,
    and its calls are a [stat], a read and the call of the compiler. *)
Lemma load_begin_await id w p w0 :
  load_begin id w = (Ok (LoadAwait p), w0) ->
  w0 = add_events [EvCompile (p_code p) (p_srcFile p);
                   EvReadFile (p_srcFile p); EvStat (p_srcFile p)] w
  /\ p_id p = id
  /\ forall w', plugin w' = plugin w -> fs w' = fs w ->
       load_begin id w'
       = (Ok (LoadAwait p),
          add_events [EvCompile (p_code p) (p_srcFile p);
                      EvReadFile (p_srcFile p); EvStat (p_srcFile p)] w').
Proof.
  rewrite load_begin_cases.
  destruct (compiledFileMap (plugin w) !! id) as [src|] eqn:Hsrc;
    [|destruct (inherited_name id); discriminate].
  destruct (negb (JsString.truthy src)) eqn:Htr; [discriminate|].
  destruct (fs_stat (fs w) src) as [[st|]|e] eqn:Hst; try discriminate.
  destruct (modTimeOf (plugin w) src <? st_mtimeMs st)%Z eqn:Hlt.
  - destruct (fs_read (fs w) src) as [code|e] eqn:Hrd; [|discriminate].
    intros [= <- <-]. cbn. split; [reflexivity|]. split; [reflexivity|].
    intros w' Hpl Hfs.
    rewrite load_begin_cases, Hpl, Hfs, Hsrc, Htr, Hst, Hlt, Hrd. reflexivity.
  - destruct (fs_read (fs w) id); discriminate.
Qed.

(** C4: when a load reaches the compiler and the compiler rejects, the
    load fails with that rejection; it has made no [mkdir] and no write,
    the file system and the plugin state (hence the timestamp of the
    record) are as before the load, and a load of the same output in that
    state calls the compiler again with the same source text. *)
Theorem load_compile_failure (compileString : string -> string -> Result string)
    id w p w0 e :
  load_begin id w = (Ok (LoadAwait p), w0) ->
  compileString (p_code p) (p_srcFile p) = Throw e ->
  exists w1,
    load compileString id w = (Throw e, w1)
    /\ plugin w1 = plugin w
    /\ fs w1 = fs w
    /\ modTimeOf (plugin w1) (p_srcFile p) = modTimeOf (plugin w) (p_srcFile p)
    /\ count_events is_write (new_events w w1) = 0
    /\ exists w2,
         load compileString id w1 = (Throw e, w2)
         /\ new_events w1 w2
            = [EvCompile (p_code p) (p_srcFile p);
               EvReadFile (p_srcFile p); EvStat (p_srcFile p)].
Proof.
  intros Hbegin Hrej.
  destruct (load_begin_await _ _ _ _ Hbegin) as (Hw0 & Hid & Hagain).
  exists w0. unfold load, bind. rewrite Hbegin, load_resume_cases, Hrej.
  subst w0. cbn. split; [reflexivity|]. repeat (split; [reflexivity|]).
  split.
  { rewrite (new_events_add [EvCompile (p_code p) (p_srcFile p);
                             EvReadFile (p_srcFile p); EvStat (p_srcFile p)])
      by reflexivity. reflexivity. }
  eexists. rewrite Hagain by reflexivity. rewrite load_resume_cases, Hrej.
  split; [reflexivity|].
  apply new_events_add. reflexivity.
Qed.

Lemma count_events_app f (l1 l2 : list Event) :
  count_events f (l1 ++ l2)%list = count_events f l1 + count_events f l2.
Proof. unfold count_events. rewrite List.filter_app. apply length_app. Qed.

(** The part of a load after the compiler makes no call of the compiler;
    when it succeeds it has written the artifact once, and on a file
    system that reads back what was written it returns the compiled text. *)
Lemma load_resume_shape p (compiled : Result string) w :
  exists r w' evs,
    load_resume p compiled w = (r, w')
    /\ trace w' = (evs ++ trace w)%list
    /\ count_events is_compile evs = 0
    /\ forall a, r = Ok a ->
         count_events is_writeFile evs = 1
         /\ ((forall f q d f', fs_write f q d = Ok f' -> fs_read f' q = Ok d) ->
             exists js, compiled = Ok js /\ a = LCode js).
Proof.
  rewrite load_resume_cases.
  destruct compiled as [js|e].
  - cbn. destruct (fs_mkdir _ _) as [f1|e].
    + destruct (fs_write _ _ _) as [f2|e] eqn:Hw.
      * do 2 eexists. eexists [_; _; _]. split; [reflexivity|].
        split; [reflexivity|]. split; [reflexivity|].
        intros a Ha. split; [reflexivity|]. intros Hlaw.
        rewrite (Hlaw _ _ _ _ Hw) in Ha. injection Ha as <-. eauto.
      * do 2 eexists. eexists [_; _]. split; [reflexivity|].
        split; [reflexivity|]. split; [reflexivity|]. intros a [=].
    + do 2 eexists. eexists [_]. split; [reflexivity|].
      split; [reflexivity|]. split; [reflexivity|]. intros a [=].
  - do 2 eexists. exists []. split; [reflexivity|].
    split; [reflexivity|]. split; [reflexivity|]. intros a [=].
Qed.

Lemma count_events_none f (l : list Event) :
  count_events f l = 0 -> List.filter f l = [].
Proof.
  unfold count_events. destruct (List.filter f l); [reflexivity | discriminate].
Qed.

(** C8, as the code has it: [load] keeps no table of loads in flight.
    When a load of an output stops at the compiler, a second load of it
    started right after, before the first compilation has settled and
    with nothing in between, stops at the compiler too: the compiler is
    called twice, both times with the text and the path the first load
    read.  When both loads then succeed, the artifact has been written
    twice; and on a file system that reads back what was written, each
    caller receives the text its own compilation produced, so both receive
    the same content when the compiler answers both calls alike. *)
Theorem load_twice_compiles_twice id w p w1 (compiledA compiledB : Result string) :
  load_begin id w = (Ok (LoadAwait p), w1) ->
  exists rA rB w4,
    load_twice id compiledA compiledB w = (rA, rB, w4)
    /\ List.filter is_compile (new_events w w4)
       = [EvCompile (p_code p) (p_srcFile p); EvCompile (p_code p) (p_srcFile p)]
    /\ count_events is_compile (new_events w w4) = 2
    /\ forall a b, rA = Ok a -> rB = Ok b ->
         count_events is_writeFile (new_events w w4) = 2
         /\ ((forall f q d f', fs_write f q d = Ok f' -> fs_read f' q = Ok d) ->
             exists jsA jsB,
               compiledA = Ok jsA /\ compiledB = Ok jsB
               /\ a = LCode jsA /\ b = LCode jsB).
Proof.
  intros Hbegin.
  destruct (load_begin_await _ _ _ _ Hbegin) as (Hw1 & Hid & Hagain).
  unfold load_twice. rewrite Hbegin.
  rewrite (Hagain w1) by (subst w1; reflexivity).
  unfold load_settle.
  set (evs := [EvCompile (p_code p) (p_srcFile p);
               EvReadFile (p_srcFile p); EvStat (p_srcFile p)]) in *.
  destruct (load_resume_shape p compiledA (add_events evs w1))
    as (rA & w3 & evsA & HA & HtA & HcA & HokA).
  rewrite HA.
  destruct (load_resume_shape p compiledB w3)
    as (rB & w4 & evsB & HB & HtB & HcB & HokB).
  rewrite HB.
  exists rA, rB, w4. split; [reflexivity|].
  assert (Htrace : trace w4 = ((evsB ++ evsA ++ evs ++ evs) ++ trace w)%list).
  { rewrite HtB, HtA, Hw1. cbn [trace add_events].
    rewrite <- !app_assoc. reflexivity. }
  rewrite (new_events_add _ _ _ Htrace), !count_events_app, HcA, HcB.
  split.
  { rewrite !List.filter_app, (count_events_none _ _ HcA),
      (count_events_none _ _ HcB). reflexivity. }
  split; [reflexivity|].
  intros a b Ha Hb.
  destruct (HokA a Ha) as [HwA HlawA].
  destruct (HokB b Hb) as [HwB HlawB].
  rewrite HwA, HwB. split; [reflexivity|].
  intros Hlaw.
  destruct (HlawA Hlaw) as (jsA & -> & ->).
  destruct (HlawB Hlaw) as (jsB & -> & ->).
  eauto 6.
Qed.

End HookProps.

(** *** [handleHotUpdate] *)

Section HotUpdateProps.

Context {G Mod : Type} `{ModuleGraph G Mod}.


(** A path without entry that names a member of [Object.prototype]: the
    destructuring throws, and the graph is left alone. *)
Lemma handleHotUpdate_inherited_name (pl : Plugin) (file : string) (server : G)
    (modules : list Mod) :
  srcFileMap pl !! file = None ->
  inherited_name file = true ->
  handleHotUpdate pl file server modules = (Throw (TypeError "iterable"), server).
Proof.
  intros Hnone Hinh. unfold handleHotUpdate. rewrite Hnone, Hinh. reflexivity.
Qed.

(** A tracked path whose output is not live in the graph: the pending
    list is returned as it is and the graph is left alone. *)
Lemma handleHotUpdate_not_live (pl : Plugin) (file out : string) (t : Z)
    (server : G) (modules : list Mod) :
  srcFileMap pl !! file = Some (out, t) ->
  JsString.truthy out = true ->
  getModuleById server out = None ->
  handleHotUpdate pl file server modules = (Ok (Some modules), server).
Proof.
  intros Hsrc Htr Hget. unfold handleHotUpdate. rewrite Hsrc, Htr, Hget.
  reflexivity.
Qed.

(** A tracked path whose output is live: the graph is told of the change
    and the module is appended to the pending list. *)
Lemma handleHotUpdate_live (pl : Plugin) (file out : string) (t : Z)
    (server : G) (modules : list Mod) (m : Mod) :
  srcFileMap pl !! file = Some (out, t) ->
  JsString.truthy out = true ->
  getModuleById server out = Some m ->
  handleHotUpdate pl file server modules
    = (Ok (Some (modules ++ [m])%list), onFileChange server out).
Proof.
  intros Hsrc Htr Hget. unfold handleHotUpdate. rewrite Hsrc, Htr, Hget.
  reflexivity.
Qed.

End HotUpdateProps.

(* ===================================================================== *)
(** ** The properties on the small project *)
(* ===================================================================== *)

Lemma resolveId_scan_example :
  resolveId "/p" "./src/a.cljs" "/p/index.html" true Demo.world0
  = (Ok RNull, Demo.world0).
Proof. reflexivity. Qed.

(** [toString] has no entry in [compiledFileMap], and its load throws. *)
Lemma load_unregistered_id_witness :
  compiledFileMap (plugin Demo.world2) !! "toString" = None
  /\ load Demo.accept "toString" Demo.world2
     = (Throw (TypeError "path"), Demo.world2)
  /\ load Demo.accept "/p/src/main.js" Demo.world2 = (Ok LNull, Demo.world2).
Proof.
  split; [vm_compute; reflexivity|]. split.
  - apply (load_unregistered_id Demo.accept "toString" Demo.world2).
    vm_compute. reflexivity.
  - apply (load_unregistered_id Demo.accept "/p/src/main.js" Demo.world2).
    vm_compute. reflexivity.
Defined.

(** [./util] imported from the compiled [a], with no [util.cljs] next to
    the source: rewritten to the absolute path next to the source, and the
    registries stay as they are. *)
Lemma resolveId_registry_frame_witness :
  resolveId "/p" "./util" "/p/out/src/a.jsx" false Demo.world2
    = (Ok (RId "/p/src/util"),
       add_events [EvStat "/p/src/util.cljs"] Demo.world2)
  /\ plugin (add_events [EvStat "/p/src/util.cljs"] Demo.world2)
     = plugin Demo.world2.
Proof.
  assert (Hrun : resolveId "/p" "./util" "/p/out/src/a.jsx" false Demo.world2
                 = (Ok (RId "/p/src/util"),
                    add_events [EvStat "/p/src/util.cljs"] Demo.world2)).
  { vm_compute. reflexivity. }
  split; [exact Hrun|].
  destruct (resolveId_registry_frame "/p" _ _ _ _ _ Hrun) as [Hframe _].
  apply (Hframe "./util" (add_events [EvStat "/p/src/util.cljs"] Demo.world2)).
  - vm_compute. reflexivity.
  - vm_compute. reflexivity.
Defined.

(** [a.cljs] reached by its absolute path from the page and by [./a.cljs]
    from a module next to it, before and after a load: one output path. *)
Lemma resolveId_outputId_deterministic_witness :
  fst (resolveId "/p" "/p/src/a.cljs" "/p/index.html" false Demo.world0)
    = Ok (RId "/p/out/src/a.jsx")
  /\ fst (resolveId "/p" "./a.cljs" "/p/src/main.js" false Demo.world3)
     = fst (resolveId "/p" "/p/src/a.cljs" "/p/index.html" false Demo.world0).
Proof.
  assert (Hsession : rtc (session_step "/p") Demo.world0 Demo.world3).
  { apply (rtc_l _ _ Demo.world1); [apply step_resolveId|].
    apply (rtc_l _ _ Demo.world2); [apply step_resolveId|].
    apply (rtc_l _ _ (snd (load_begin "/p/out/src/a.jsx" Demo.world2)));
      [apply step_load_begin|].
    apply rtc_once.
    exact (step_load_resume "/p"
             {| p_id := "/p/out/src/a.jsx"; p_srcFile := "/p/src/a.cljs";
                p_mtimeMs := 5; p_code := "(ns a)" |}
             (Ok "js:(ns a)")
             (snd (load_begin "/p/out/src/a.jsx" Demo.world2))). }
  destruct (resolveId_outputId_deterministic "/p"
              "/p/src/a.cljs" "/p/index.html" "./a.cljs" "/p/src/main.js"
              Demo.world0 Demo.world3 "/p/src/a.cljs" "./a.cljs"
              Demo.world0 Demo.world3 "/p" "/p/src/a.cljs")
    as (Hout & Hsame); try (vm_compute; reflexivity); [exact Hsession|].
  split; [exact Hout | exact Hsame].
Defined.

Lemma resolveId_reregistration_resets_witness :
  exists w',
    resolveId "/p" "./a.cljs" "/p/src/main.js" false Demo.world3
      = (Ok (RId "/p/out/src/a.jsx"), w')
    /\ srcFileMap (plugin w') !! "/p/src/a.cljs" = Some ("/p/out/src/a.jsx", 0%Z).
Proof.
  destruct (resolveId_reregistration_resets "/p"
              "./a.cljs" "/p/src/main.js" Demo.world3 "./a.cljs" Demo.world3
              "/p" "/p/src/a.cljs" "/p/out/src/a.jsx" 5%Z)
    as (w' & Hrun & Hrec & _); try (vm_compute; reflexivity).
  exists w'. split; [exact Hrun | exact Hrec].
Defined.

(** C1 fails on the code: [a.cljs] is registered, loaded (its record then
    holds the modification time 5) and resolved again; the record holds 0
    afterwards, and the next load compiles once more. *)
Lemma resolveId_reregistration_loses_timestamp :
  srcFileMap (plugin Demo.world3) !! "/p/src/a.cljs"
    = Some ("/p/out/src/a.jsx", 5%Z)
  /\ resolveId "/p" "./a.cljs" "/p/src/main.js" false Demo.world3
     = (Ok (RId "/p/out/src/a.jsx"), Demo.world4)
  /\ srcFileMap (plugin Demo.world4) !! "/p/src/a.cljs"
     = Some ("/p/out/src/a.jsx", 0%Z)
  /\ modTimeOf (plugin Demo.world4) "/p/src/a.cljs"
     <> modTimeOf (plugin Demo.world3) "/p/src/a.cljs"
  /\ count_events is_compile
       (new_events Demo.world4
          (snd (load Demo.accept "/p/out/src/a.jsx" Demo.world4))) = 1.
Proof.
  repeat split; try (vm_compute; reflexivity).
  vm_compute. discriminate.
Qed.



(** The compiler rejects [b]: the load fails, and fails again on retry
    after calling the compiler again. *)
Lemma load_compile_failure_witness :
  exists w1,
    load Demo.reject "/p/out/src/b.jsx" Demo.world2
      = (Throw (CompileError "unreadable form"), w1)
    /\ plugin w1 = plugin Demo.world2
    /\ fs w1 = fs Demo.world2.
Proof.
  destruct (load_compile_failure Demo.reject "/p/out/src/b.jsx" Demo.world2
              {| p_id := "/p/out/src/b.jsx"; p_srcFile := "/p/src/b.cljs";
                 p_mtimeMs := 7; p_code := "(ns b)" |}
              (add_events [EvCompile "(ns b)" "/p/src/b.cljs";
                           EvReadFile "/p/src/b.cljs"; EvStat "/p/src/b.cljs"]
                 Demo.world2)
              (CompileError "unreadable form"))
    as (w1 & Hrun & Hpl & Hfs & _); try (vm_compute; reflexivity).
  exists w1. auto.
Defined.

Lemma memfs_reads_back (f : MemFs.t) (q d : string) (f' : MemFs.t) :
  fs_write f q d = Ok f' -> fs_read f' q = Ok d.
Proof.
  cbn. unfold MemFs.write, MemFs.read.
  destruct (MemFs.nodes f !! q) as [[c m|]|];
    destruct (MemFs.nodes f !! Path.dirname q) as [[c' m'|]|];
    try discriminate; intros [= <-]; cbn; rewrite lookup_insert_eq; reflexivity.
Qed.

Lemma load_twice_compiles_twice_witness :
  exists rA rB w4,
    load_twice "/p/out/src/b.jsx" (Ok "js:(ns b)") (Ok "js:(ns b)") Demo.world2
      = (rA, rB, w4)
    /\ List.filter is_compile (new_events Demo.world2 w4)
       = [EvCompile "(ns b)" "/p/src/b.cljs"; EvCompile "(ns b)" "/p/src/b.cljs"]
    /\ count_events is_compile (new_events Demo.world2 w4) = 2
    /\ forall a b, rA = Ok a -> rB = Ok b ->
         count_events is_writeFile (new_events Demo.world2 w4) = 2 /\ a = b.
Proof.
  destruct (load_twice_compiles_twice "/p/out/src/b.jsx" Demo.world2
              {| p_id := "/p/out/src/b.jsx"; p_srcFile := "/p/src/b.cljs";
                 p_mtimeMs := 7; p_code := "(ns b)" |}
              (add_events [EvCompile "(ns b)" "/p/src/b.cljs";
                           EvReadFile "/p/src/b.cljs"; EvStat "/p/src/b.cljs"]
                 Demo.world2)
              (Ok "js:(ns b)") (Ok "js:(ns b)"))
    as (rA & rB & w4 & Hrun & Htexts & Hcount & Hboth);
    try (vm_compute; reflexivity).
  exists rA, rB, w4. split; [exact Hrun|]. split; [exact Htexts|].
  split; [exact Hcount|].
  intros a b Ha Hb. destruct (Hboth a b Ha Hb) as [Hwrites Hsame].
  split; [exact Hwrites|].
  destruct (Hsame memfs_reads_back) as (jsA & jsB & HA & HB & -> & ->).
  congruence.
Defined.

(** C8 fails on the code: two loads of the stale [b] started together call
    the compiler twice and write the artifact twice. *)
Lemma load_twice_not_coalesced :
  exists w4,
    load_twice "/p/out/src/b.jsx" (Ok "js:(ns b)") (Ok "js:(ns b)") Demo.world2
      = (Ok (LCode "js:(ns b)"), Ok (LCode "js:(ns b)"), w4)
    /\ count_events is_compile (new_events Demo.world2 w4) = 2
    /\ count_events is_writeFile (new_events Demo.world2 w4) = 2
    /\ count_events is_compile (new_events Demo.world2 w4) <> 1
    /\ count_events is_writeFile (new_events Demo.world2 w4) <> 1.
Proof.
  eexists. split; [vm_compute; reflexivity|].
  repeat split; try (vm_compute; reflexivity); vm_compute; discriminate.
Qed.



(** The tracked paths of the project: [b] was never loaded in the graph,
    [a] is live. *)
Lemma handleHotUpdate_tracked_examples :
  handleHotUpdate (plugin Demo.world2) "/p/src/b.cljs" Demo.graph ["m"]
    = (Ok (Some ["m"]), Demo.graph)
  /\ handleHotUpdate (plugin Demo.world2) "/p/src/a.cljs" Demo.graph ["m"]
     = (Ok (Some ["m"; "/p/out/src/a.jsx"]),
        {| ListGraph.live := ["/p/out/src/a.jsx"];
           ListGraph.invalidated := ["/p/out/src/a.jsx"] |}).
Proof. split; vm_compute; reflexivity. Qed.

(* ===================================================================== *)
(** ** Further properties *)
(* ===================================================================== *)

(** *** Facts on strings and paths *)

Lemma string_app_cons (x : ascii) (a b : string) :
  String x a ++ b = String x (a ++ b).
Proof. reflexivity. Qed.

Lemma string_app_nil_l (a : string) : "" ++ a = a.
Proof. reflexivity. Qed.

Lemma string_app_assoc (a b c : string) : (a ++ b) ++ c = a ++ (b ++ c).
Proof.
  induction a as [|x a IH]; [reflexivity|].
  rewrite !string_app_cons, IH. reflexivity.
Qed.

Lemma string_app_nil_r (a : string) : a ++ "" = a.
Proof.
  induction a as [|x a IH]; [reflexivity|].
  rewrite string_app_cons, IH. reflexivity.
Qed.

Lemma test_cljs_cons c s :
  JsString.test_cljs (String c s)
  = String.eqb (String c s) ".cljs" || JsString.test_cljs s.
Proof. reflexivity. Qed.

(** A string that ends in [.cljs] still does with anything before it. *)
Lemma test_cljs_app_r a s :
  JsString.test_cljs s = true -> JsString.test_cljs (a ++ s) = true.
Proof.
  intros Hs. induction a as [|c a IH]; [exact Hs|].
  rewrite string_app_cons, test_cljs_cons, IH. apply orb_true_r.
Qed.

Lemma has_slash_app a b : has_slash (a ++ b) = has_slash a || has_slash b.
Proof.
  induction a as [|c a IH]; [reflexivity|].
  rewrite string_app_cons. cbn [has_slash]. rewrite IH. apply orb_assoc.
Qed.

(** Behind a slash, only what follows the slash decides the test. *)
Lemma test_cljs_behind_slash a s :
  JsString.test_cljs (a ++ "/" ++ s) = JsString.test_cljs s.
Proof.
  induction a as [|c a IH].
  - rewrite string_app_nil_l, string_app_cons, test_cljs_cons.
    destruct s as [|c s]; reflexivity.
  - rewrite string_app_cons, test_cljs_cons, IH.
    destruct (String.eqb_spec (String c (a ++ "/" ++ s)) ".cljs") as [Heq|];
      [|reflexivity].
    exfalso.
    assert (Hin : has_slash (String c (a ++ "/" ++ s)) = true).
    { cbn [has_slash]. rewrite has_slash_app.
      change (has_slash ("/" ++ s)) with true.
      rewrite !orb_true_r. reflexivity. }
    rewrite Heq in Hin. discriminate Hin.
Qed.

Lemma replace_cljs_cons c s :
  JsString.replace_cljs (String c s)
  = if String.eqb (String c s) ".cljs" then ".jsx"
    else String c (JsString.replace_cljs s).
Proof. reflexivity. Qed.

(** After the replacement nothing ends in [.cljs]. *)
Lemma test_cljs_replace s : JsString.test_cljs (JsString.replace_cljs s) = false.
Proof.
  induction s as [|c s IH]; [reflexivity|].
  rewrite replace_cljs_cons.
  destruct (String.eqb_spec (String c s) ".cljs") as [Heq|Hne]; [reflexivity|].
  rewrite test_cljs_cons, IH, orb_false_r.
  apply String.eqb_neq. intros Heq.
  (* the replaced string is [.cljs]: then [s] is [cljs] or ends in [.cljs] *)
  injection Heq as -> Hs.
  destruct s as [|c1 s]; [discriminate|].
  rewrite replace_cljs_cons in Hs.
  destruct (String.eqb (String c1 s) ".cljs"); [discriminate|].
  injection Hs as -> Hs.
  destruct s as [|c2 s]; [discriminate|].
  rewrite replace_cljs_cons in Hs.
  destruct (String.eqb (String c2 s) ".cljs"); [discriminate|].
  injection Hs as -> Hs.
  destruct s as [|c3 s]; [discriminate|].
  rewrite replace_cljs_cons in Hs.
  destruct (String.eqb (String c3 s) ".cljs"); [discriminate|].
  injection Hs as -> Hs.
  destruct s as [|c4 s]; [discriminate|].
  rewrite replace_cljs_cons in Hs.
  destruct (String.eqb (String c4 s) ".cljs"); [discriminate|].
  injection Hs as -> Hs.
  destruct s as [|c5 s]; [|rewrite replace_cljs_cons in Hs;
    destruct (String.eqb (String c5 s) ".cljs"); discriminate].
  apply Hne. reflexivity.
Qed.

Lemma split_nonempty s : Path.split s <> [].
Proof.
  destruct s as [|c s]; cbn; [discriminate|].
  destruct (Path.is_slash c); [discriminate|].
  destruct (Path.split s); discriminate.
Qed.

Lemma split_cons c s :
  Path.split (String c s)
  = if Path.is_slash c then "" :: Path.split s
    else match Path.split s with
         | [] => [String c ""]
         | seg :: rest => String c seg :: rest
         end.
Proof. reflexivity. Qed.

(** Splitting at a slash splits the list of segments. *)
Lemma split_app_slash x y :
  Path.split (x ++ "/" ++ y) = (Path.split x ++ Path.split y)%list.
Proof.
  induction x as [|c x IH].
  - reflexivity.
  - rewrite string_app_cons, !split_cons, IH.
    destruct (Path.is_slash c); [reflexivity|].
    destruct (Path.split x) as [|seg rest] eqn:Hx; [|reflexivity].
    exfalso. exact (split_nonempty _ Hx).
Qed.

Lemma split_noslash y : has_slash y = false -> Path.split y = [y].
Proof.
  induction y as [|c y IH]; [reflexivity|].
  cbn [has_slash]. intros Hs. apply orb_false_elim in Hs as [Hc Hy].
  rewrite split_cons, Hc, (IH Hy). reflexivity.
Qed.

(** Appending text without slash extends the last segment. *)
Lemma split_app_noslash x y :
  has_slash y = false ->
  Path.split (x ++ y)
  = (removelast (Path.split x) ++ [(last_segment x ++ y)%string])%list.
Proof.
  intros Hy. unfold last_segment. induction x as [|c x IH].
  - cbn. apply split_noslash, Hy.
  - rewrite string_app_cons, !split_cons, IH.
    pose proof (split_nonempty x) as Hne.
    destruct (Path.is_slash c).
    + destruct (Path.split x) as [|seg rest]; [contradiction|]. reflexivity.
    + destruct (Path.split x) as [|seg rest]; [contradiction|].
      destruct rest as [|seg' rest]; reflexivity.
Qed.

Lemma split_last_segment x :
  Path.split x = (removelast (Path.split x) ++ [last_segment x])%list.
Proof. apply app_removelast_last, split_nonempty. Qed.

Lemma last_segment_app_slash x y : last_segment (x ++ "/" ++ y) = last_segment y.
Proof.
  unfold last_segment. rewrite split_app_slash.
  rewrite (split_last_segment y), app_assoc, !last_last. reflexivity.
Qed.

Lemma last_segment_app_noslash x y :
  has_slash y = false -> last_segment (x ++ y) = last_segment x ++ y.
Proof.
  intros Hy. unfold last_segment at 1.
  rewrite (split_app_noslash _ _ Hy), last_last. reflexivity.
Qed.

Lemma removelast_split_app_noslash x y :
  has_slash y = false ->
  removelast (Path.split (x ++ y)) = removelast (Path.split x).
Proof.
  intros Hy. rewrite (split_app_noslash _ _ Hy). apply removelast_last.
Qed.

Lemma split_segments_noslash s : Forall (fun seg => has_slash seg = false) (Path.split s).
Proof.
  induction s as [|c s IH]; [repeat constructor|].
  rewrite split_cons. destruct (Path.is_slash c) eqn:Hc.
  - constructor; [reflexivity | exact IH].
  - destruct (Path.split s) as [|seg rest]; [repeat constructor; cbn; now rewrite Hc|].
    inversion IH as [|? ? Hseg Hrest]; subst.
    constructor; [cbn; now rewrite Hc, Hseg | exact Hrest].
Qed.

(** A path that ends in [.cljs] has a last segment that does. *)
Lemma test_cljs_last_segment s :
  JsString.test_cljs s = true -> JsString.test_cljs (last_segment s) = true.
Proof.
  unfold last_segment. induction s as [|c s IH]; [discriminate|].
  rewrite test_cljs_cons, split_cons. intros Ht.
  pose proof (split_nonempty s) as Hne.
  destruct (String.eqb_spec (String c s) ".cljs") as [Heq|Hneq].
  - injection Heq as -> ->. reflexivity.
  - cbn in Ht. specialize (IH Ht).
    destruct (Path.is_slash c).
    + destruct (Path.split s) as [|seg rest]; [contradiction|]. exact IH.
    + destruct (Path.split s) as [|seg rest]; [contradiction|].
      destruct rest as [|seg' rest]; [|exact IH].
      cbn in IH |- *. rewrite test_cljs_cons, IH. apply orb_true_r.
Qed.

Lemma test_cljs_plain s : JsString.test_cljs s = true -> plain_segment s = true.
Proof.
  intros Ht. unfold plain_segment.
  destruct (String.eqb_spec s "") as [->|]; [vm_compute in Ht; discriminate|].
  destruct (String.eqb_spec s ".") as [->|]; [vm_compute in Ht; discriminate|].
  destruct (String.eqb_spec s "..") as [->|]; [vm_compute in Ht; discriminate|].
  reflexivity.
Qed.

Lemma plain_segment_nonempty s : plain_segment s = true -> JsString.truthy s = true.
Proof. destruct s; [discriminate|reflexivity]. Qed.

(** What [resolve_loop] prepends does not depend on what it prepends to;
    it is empty or ends in a slash. *)
Lemma resolve_loop_prefix rest :
  exists pre b,
    (pre = "" \/ exists q, pre = q ++ "/")
    /\ forall acc, Path.resolve_loop rest acc = (pre ++ acc, b).
Proof.
  induction rest as [|p rest (pre & b & Hpre & IH)].
  - exists "", false. split; [left; reflexivity | reflexivity].
  - destruct p as [|c p].
    + exists pre, b. split; [exact Hpre | intros acc; cbn; apply IH].
    + destruct (Path.is_slash c) eqn:Hc.
      * exists (String c p ++ "/"), true. split; [right; eauto|].
        intros acc. cbn. rewrite Hc, string_app_assoc. reflexivity.
      * exists (pre ++ String c p ++ "/"), b.
        split; [right; exists (pre ++ String c p); now rewrite string_app_assoc|].
        intros acc. cbn. rewrite Hc, IH, !string_app_assoc. reflexivity.
Qed.

Lemma startsWith_slash c s :
  JsString.startsWith "/" (String c s) = Path.is_slash c.
Proof.
  change (JsString.startsWith "/" (String c s)) with (Ascii.eqb "/" c && true).
  rewrite andb_true_r. apply Ascii.eqb_sym.
Qed.

(** With an absolute path at its end the loop ends on an absolute path. *)
Lemma resolve_loop_absolute rest cwd acc :
  JsString.startsWith "/" cwd = true ->
  snd (Path.resolve_loop (rest ++ [cwd]) acc) = true.
Proof.
  intros Hcwd. revert acc. induction rest as [|p rest IH]; intros acc.
  - destruct cwd as [|c cwd]; [discriminate|].
    rewrite startsWith_slash in Hcwd.
    cbn [app Path.resolve_loop]. rewrite Hcwd. reflexivity.
  - destruct p as [|c p]; cbn; [apply IH|].
    destruct (Path.is_slash c); [reflexivity | apply IH].
Qed.

(** The loop on a first path that is not empty: the joined text is that
    path and a slash behind a prefix fixed by its first character and by
    the other paths. *)
Lemma resolve_loop_first c rest :
  exists pre b,
    (pre = "" \/ exists q, pre = q ++ "/")
    /\ forall r, Path.resolve_loop (String c r :: rest) ""
                 = (pre ++ String c r ++ "/", b).
Proof.
  destruct (Path.is_slash c) eqn:Hc.
  - exists "", true. split; [left; reflexivity|].
    intros r. cbn. rewrite Hc. reflexivity.
  - destruct (resolve_loop_prefix rest) as (pre & b & Hpre & Hloop).
    exists pre, b. split; [exact Hpre|].
    intros r. cbn. rewrite Hc, Hloop. reflexivity.
Qed.

Lemma normalizeSegs_cons a acc seg rest :
  Path.normalizeSegs a acc (seg :: rest) =
  if String.eqb seg "" || String.eqb seg "." then Path.normalizeSegs a acc rest
  else if String.eqb seg ".." then
    match acc with
    | top :: acc' =>
        if String.eqb top ".." then
          Path.normalizeSegs a (if a then ".." :: acc else acc) rest
        else Path.normalizeSegs a acc' rest
    | [] => Path.normalizeSegs a (if a then [".."] else []) rest
    end
  else Path.normalizeSegs a (seg :: acc) rest.
Proof. reflexivity. Qed.

(** Normalizing a list in two parts: the first part leaves a stack, whose
    segments are among those it held, those of the first part and, above
    the root only, [..]. *)
Lemma normalizeSegs_app a acc l1 :
  exists acc',
    (forall l2, Path.normalizeSegs a acc (l1 ++ l2)
                = Path.normalizeSegs a acc' l2)
    /\ forall P : string -> Prop,
         Forall P acc ->
         Forall (fun s => plain_segment s = true -> P s) l1 ->
         (a = true -> P "..") ->
         Forall P acc'.
Proof.
  revert acc. induction l1 as [|seg l1 IH]; intros acc.
  - exists acc. split; [reflexivity | auto].
  - assert (Hstep : exists acc1,
               (forall l2, Path.normalizeSegs a acc ((seg :: l1) ++ l2)
                           = Path.normalizeSegs a acc1 (l1 ++ l2))
               /\ forall P : string -> Prop,
                    Forall P acc -> (plain_segment seg = true -> P seg) ->
                    (a = true -> P "..") -> Forall P acc1).
    { unfold plain_segment.
      destruct (String.eqb seg "" || String.eqb seg ".") eqn:He.
      - exists acc. split; [|auto].
        intros l2. cbn [app]. rewrite normalizeSegs_cons, He. reflexivity.
      - destruct (String.eqb seg "..") eqn:Hdd.
        + destruct acc as [|top acc0].
          * exists (if a then [".."] else []). split.
            { intros l2. cbn [app]. rewrite normalizeSegs_cons, He, Hdd. reflexivity. }
            intros P _ _ Hup. destruct a; auto.
          * destruct (String.eqb top "..") eqn:Htop.
            -- exists (if a then ".." :: top :: acc0 else top :: acc0). split.
               { intros l2. cbn [app].
                 rewrite normalizeSegs_cons, He, Hdd, Htop. reflexivity. }
               intros P Hacc _ Hup. destruct a; auto.
            -- exists acc0. split.
               { intros l2. cbn [app].
                 rewrite normalizeSegs_cons, He, Hdd, Htop. reflexivity. }
               intros P Hacc _ _. inversion Hacc; assumption.
        + exists (seg :: acc). split.
          { intros l2. cbn [app]. rewrite normalizeSegs_cons, He, Hdd. reflexivity. }
          intros P Hacc Hseg _. constructor; [|exact Hacc].
          apply Hseg. apply orb_false_elim in He as [-> ->]. reflexivity. }
    destruct Hstep as (acc1 & Heq1 & HP1).
    destruct (IH acc1) as (acc' & Heq & HP).
    exists acc'. split.
    + intros l2. rewrite Heq1. apply Heq.
    + intros P Hacc Hl Hup. inversion Hl as [|? ? Hseg Hl1]; subst.
      apply HP; auto.
Qed.

(** Plain segments are pushed as they come. *)
Lemma normalizeSegs_plain a acc l l2 :
  Forall (fun s => plain_segment s = true) l ->
  Path.normalizeSegs a acc (l ++ l2) = Path.normalizeSegs a (rev l ++ acc) l2.
Proof.
  intros Hl. revert acc. induction Hl as [|seg l Hseg _ IH]; intros acc.
  - reflexivity.
  - cbn [app rev]. rewrite normalizeSegs_cons.
    unfold plain_segment in Hseg.
    apply andb_prop in Hseg as [Hseg Hdd]. apply andb_prop in Hseg as [He Hd].
    apply negb_true_iff in He, Hd, Hdd. rewrite He, Hd, Hdd. cbn [orb].
    rewrite IH, <- app_assoc. reflexivity.
Qed.

Lemma join_cons seg seg' rest :
  Path.join (seg :: seg' :: rest) = seg ++ "/" ++ Path.join (seg' :: rest).
Proof. reflexivity. Qed.

(** Text appended to a joined path goes to its last segment. *)
Lemma join_snoc_app l s t :
  Path.join (l ++ [s]) ++ t = Path.join (l ++ [(s ++ t)%string]).
Proof.
  induction l as [|seg l IH]; [reflexivity|].
  destruct l as [|seg' l].
  - cbn [app]. rewrite !join_cons. cbn [Path.join].
    rewrite !string_app_assoc. reflexivity.
  - cbn [app] in *. rewrite !join_cons, !string_app_assoc, IH. reflexivity.
Qed.

Lemma join_snoc_suffix l s : exists pre, Path.join (l ++ [s]) = pre ++ s.
Proof.
  induction l as [|seg l (pre & IH)]; [exists ""; reflexivity|].
  destruct l as [|seg' l].
  - exists (seg ++ "/"). cbn [app]. rewrite join_cons. cbn [Path.join].
    now rewrite string_app_assoc.
  - exists (seg ++ "/" ++ pre). cbn [app] in *. rewrite join_cons, IH.
    now rewrite !string_app_assoc.
Qed.

(** Joining segments without slash and splitting again gives them back. *)
Lemma split_join l :
  l <> [] ->
  Forall (fun seg => has_slash seg = false) l ->
  Path.split (Path.join l) = l.
Proof.
  intros Hne Hl. induction Hl as [|seg l Hseg Hl IH]; [contradiction|].
  destruct l as [|seg' l].
  - cbn [Path.join]. apply split_noslash, Hseg.
  - rewrite join_cons, split_app_slash, (split_noslash _ Hseg), IH by discriminate.
    reflexivity.
Qed.

Lemma truthy_app_r a s : JsString.truthy s = true -> JsString.truthy (a ++ s) = true.
Proof. destruct a; [auto | reflexivity]. Qed.

Lemma Forall_removelast {A} (P : A -> Prop) (l : list A) :
  Forall P l -> Forall P (removelast l).
Proof.
  induction 1 as [|x l Hx Hl IH]; [constructor|].
  destruct l; [constructor|]. cbn. constructor; assumption.
Qed.

(** [path.resolve(base, id)] for an [id] that is not empty, seen from the
    last segment of [id]: the segments before it and the root do not
    change when text without slash is appended to [id]. *)
Lemma resolve_by_last_segment cwd base c r :
  exists N b,
    (JsString.startsWith "/" cwd = true -> b = true)
    /\ (b = true ->
        Forall (fun s => plain_segment s = true /\ has_slash s = false) N)
    /\ forall t,
         has_slash t = false ->
         plain_segment (last_segment (String c r) ++ t) = true ->
         Path.resolve cwd [base; String c r ++ t]
         = (if b then "/" else "")
           ++ Path.join (N ++ [(last_segment (String c r) ++ t)%string]).
Proof.
  destruct (resolve_loop_first c [base; cwd]) as (pre & b & Hpre & Hloop).
  (* the segments before the last one *)
  assert (Hsplit : exists L,
             Forall (fun s => has_slash s = false) L
             /\ forall t, has_slash t = false ->
                  Path.split (pre ++ String c (r ++ t) ++ "/")
                  = (L ++ [(last_segment (String c r) ++ t)%string; ""])%list).
  { destruct Hpre as [-> | (q & ->)].
    - exists (removelast (Path.split (String c r))). split.
      + apply Forall_removelast, split_segments_noslash.
      + intros t Ht. rewrite string_app_nil_l.
        change (String c (r ++ t) ++ "/") with (String c (r ++ t) ++ "/" ++ "").
        rewrite split_app_slash, <- string_app_cons, (split_app_noslash _ _ Ht).
        rewrite <- app_assoc. reflexivity.
    - exists (Path.split q ++ removelast (Path.split (String c r)))%list. split.
      + apply Forall_app. split; [apply split_segments_noslash|].
        apply Forall_removelast, split_segments_noslash.
      + intros t Ht.
        change (String c (r ++ t) ++ "/") with (String c (r ++ t) ++ "/" ++ "").
        rewrite string_app_assoc, split_app_slash, split_app_slash.
        rewrite <- string_app_cons, (split_app_noslash _ _ Ht).
        rewrite <- !app_assoc. reflexivity. }
  destruct Hsplit as (L & HL & Hsplit).
  destruct (normalizeSegs_app (negb b) [] L) as (acc' & Hnorm & HP).
  exists (rev acc'), b. split; [|split].
  - intros Hcwd.
    pose proof (resolve_loop_absolute [String c r; base] cwd "" Hcwd) as Habs.
    cbn [app] in Habs. rewrite Hloop in Habs. exact Habs.
  - intros ->. apply Forall_rev.
    apply (HP (fun s => plain_segment s = true /\ has_slash s = false)).
    + constructor.
    + eapply Forall_impl; [exact HL|]. cbn. auto.
    + discriminate.
  - intros t Ht Hplain.
    unfold Path.resolve. cbn [rev app]. rewrite string_app_cons, Hloop.
    unfold Path.normalizeString. rewrite (Hsplit t Ht), Hnorm.
    rewrite normalizeSegs_cons.
    unfold plain_segment in Hplain.
    apply andb_prop in Hplain as [Hp Hdd]. apply andb_prop in Hp as [He Hd].
    apply negb_true_iff in He, Hd, Hdd. rewrite He, Hd, Hdd. cbn [orb].
    rewrite normalizeSegs_cons. cbn [String.eqb orb Path.normalizeSegs rev].
    destruct b; [reflexivity|]. cbn [negb].
    destruct (join_snoc_suffix (rev acc') (last_segment (String c r) ++ t))
      as (pfx & Hj).
    rewrite Hj, truthy_app_r; [reflexivity|].
    destruct (last_segment (String c r) ++ t); [discriminate He | reflexivity].
Qed.

(** A specifier that ends in [.cljs] resolves to a path that does. *)
Lemma resolve_ends_cljs cwd base id :
  JsString.test_cljs id = true ->
  JsString.test_cljs (Path.resolve cwd [base; id]) = true.
Proof.
  intros Ht. destruct id as [|c r]; [discriminate|].
  destruct (resolve_by_last_segment cwd base c r) as (N & b & _ & _ & Hres).
  pose proof (test_cljs_last_segment _ Ht) as Hlast.
  specialize (Hres "" eq_refl). rewrite !string_app_nil_r in Hres.
  rewrite Hres by (apply test_cljs_plain, Hlast).
  destruct (join_snoc_suffix N (last_segment (String c r))) as (pfx & ->).
  rewrite <- string_app_assoc. apply test_cljs_app_r, Hlast.
Qed.

(** [path.resolve] always returns some text. *)
Lemma resolve_truthy cwd paths : JsString.truthy (Path.resolve cwd paths) = true.
Proof.
  unfold Path.resolve.
  destruct (Path.resolve_loop _ _) as [resolvedPath [|]]; [reflexivity|].
  cbn [negb].
  destruct (JsString.truthy (Path.normalizeString resolvedPath true)) eqn:Ht;
    [exact Ht | reflexivity].
Qed.

(** An absolute path of plain segments resolves to itself. *)
Lemma resolve_absolute_plain cwd base M :
  M <> [] ->
  Forall (fun s => plain_segment s = true /\ has_slash s = false) M ->
  Path.resolve cwd [base; String "/" (Path.join M)] = String "/" (Path.join M).
Proof.
  intros HMne HM.
  unfold Path.resolve. cbn [rev app Path.resolve_loop].
  change (Path.is_slash "/") with true. cbv iota.
  unfold Path.normalizeString.
  replace (String "/" (Path.join M) ++ "/" ++ "")
    with ("" ++ "/" ++ (Path.join M ++ "/" ++ "")) by reflexivity.
  rewrite !split_app_slash, split_join; [|exact HMne|].
  2:{ eapply Forall_impl; [exact HM|]. cbn. intros s [_ Hs]. exact Hs. }
  change (Path.split "") with [""].
  cbn [app negb]. rewrite normalizeSegs_cons. cbn [String.eqb orb].
  rewrite normalizeSegs_plain.
  2:{ eapply Forall_impl; [exact HM|]. cbn. intros s [Hs _]. exact Hs. }
  rewrite normalizeSegs_cons. cbn [String.eqb orb Path.normalizeSegs].
  rewrite app_nil_r, rev_involutive. reflexivity.
Qed.

(** With an absolute working directory, the sibling [.cljs] of what an
    extension-less specifier resolves to is what the specifier with
    [.cljs] appended resolves to, and resolves to itself. *)
Lemma resolve_probe_path cwd base id :
  JsString.startsWith "/" cwd = true ->
  plain_segment (last_segment id) = true ->
  Path.resolve cwd [base; id] ++ ".cljs" = Path.resolve cwd [base; id ++ ".cljs"]
  /\ forall base',
       Path.resolve cwd [base'; Path.resolve cwd [base; id] ++ ".cljs"]
       = Path.resolve cwd [base; id] ++ ".cljs".
Proof.
  intros Hcwd Hplain.
  destruct id as [|c r]; [discriminate|].
  destruct (resolve_by_last_segment cwd base c r) as (N & b & Hb & HN & Hres).
  specialize (Hb Hcwd). subst b. specialize (HN eq_refl).
  set (name := last_segment (String c r)) in *.
  assert (Hplain' : plain_segment (name ++ ".cljs") = true).
  { apply test_cljs_plain, test_cljs_app_r. reflexivity. }
  pose proof (Hres "" eq_refl) as H0. rewrite !string_app_nil_r in H0.
  specialize (H0 Hplain).
  pose proof (Hres ".cljs" eq_refl Hplain') as H1.
  rewrite H0, H1, string_app_assoc, join_snoc_app.
  split; [reflexivity|].
  intros base'.
  apply (resolve_absolute_plain cwd base' (N ++ [(name ++ ".cljs")%string])).
  - destruct N; discriminate.
  - apply Forall_app. split; [exact HN|]. constructor; [|constructor].
    split; [exact Hplain'|].
    rewrite has_slash_app.
    assert (Hname : has_slash name = false).
    { pose proof (split_segments_noslash (String c r)) as Hall.
      rewrite (split_last_segment (String c r)) in Hall.
      apply Forall_app in Hall as [_ Hl]. inversion Hl; assumption. }
    rewrite Hname. reflexivity.
Qed.

(** An output path never ends in [.cljs]. *)
Lemma outPathOf_not_cljs cwd root outDir src :
  JsString.test_cljs (outPathOf cwd root outDir src) = false.
Proof.
  unfold outPathOf. cbv zeta.
  set (rel := JsString.replace_cljs _).
  replace (root ++ "/" ++ outDir ++ "/" ++ rel)
    with ((root ++ "/" ++ outDir) ++ "/" ++ rel)
    by (rewrite !string_app_assoc; reflexivity).
  rewrite test_cljs_behind_slash. apply test_cljs_replace.
Qed.

(** An output path is never empty. *)
Lemma outPathOf_truthy cwd root outDir src :
  JsString.truthy (outPathOf cwd root outDir src) = true.
Proof. unfold outPathOf. cbv zeta. apply truthy_app_r. reflexivity. Qed.

(** *** More on [resolveId] *)

Section ResolveProps.

Context {FS : Type} `{FileSystem FS}.
Variable cwd : string.

Implicit Types (w : World FS) (id importer : string).

(** What the probe leaves: the specifier or the sibling, the plugin and
    the file system as they were, and one [stat] in the trace exactly when
    the specifier has no extension. *)
Lemma candidate_outcome id importer w r w0 :
  candidate cwd id importer w = (r, w0) ->
  let sibling := Path.resolve cwd [baseDir (plugin w) importer; id] ++ ".cljs" in
  plugin w0 = plugin w /\ fs w0 = fs w
  /\ (hasExtension id = true -> w0 = w /\ r = Ok id)
  /\ (hasExtension id = false -> trace w0 = EvStat sibling :: trace w)
  /\ (forall id', r = Ok id' -> id' = id \/ id' = sibling)
  /\ (forall id', r = Ok id' -> JsString.test_cljs id' = false -> id' = id).
Proof.
  intros Hc sibling.
  assert (Hsib : JsString.test_cljs sibling = true).
  { apply test_cljs_app_r. reflexivity. }
  revert Hc. unfold candidate, isFile, statSync_noThrow. unfold_m. cbn.
  fold sibling.
  destruct (hasExtension id); cbn.
  - intros [= <- <-]. repeat split; try discriminate; try (destruct w; reflexivity).
    + intros id' [= <-]. auto.
    + intros id' [= <-]. auto.
  - destruct (fs_stat (fs w) sibling) as [[st|]|e]; cbn.
    + destruct (st_isFile st); intros [= <- <-]; repeat split;
        try discriminate; intros id' [= <-]; auto; congruence.
    + intros [= <- <-]; repeat split; try discriminate; intros id' [= <-]; auto.
    + intros [= <- <-]; repeat split; try discriminate.
Qed.

(** X1: a registration never pairs a path with itself.  When [resolveId]
    registers a source, the source path ends in [.cljs] and the output
    path it returns does not, so the two differ: the artifact that [load]
    writes at the output path is never the source. *)
Theorem resolveId_source_output_distinct id importer w id' w0 root :
  candidate cwd id importer w = (Ok id', w0) ->
  JsString.test_cljs id' = true ->
  projectRoot (plugin w) = Some root ->
  let src := Path.resolve cwd [baseDir (plugin w) importer; id'] in
  let out := outPathOf cwd root (outputDir (plugin w)) src in
  fst (resolveId cwd id importer false w) = Ok (RId out)
  /\ compiledFileMap (plugin (snd (resolveId cwd id importer false w))) !! out
     = Some src
  /\ JsString.test_cljs src = true
  /\ JsString.test_cljs out = false
  /\ out <> src.
Proof.
  intros Hc Ht Hroot src out.
  destruct (candidate_frame _ _ _ _ _ _ Hc) as [Hpl _].
  rewrite resolveId_cases, Hc, Ht, Hpl, Hroot. cbn. fold src out.
  rewrite lookup_insert_eq.
  assert (Hsrc : JsString.test_cljs src = true) by (apply resolve_ends_cljs, Ht).
  assert (Hout : JsString.test_cljs out = false).
  { apply outPathOf_not_cljs. }
  repeat split; auto. congruence.
Qed.

(** X2: an extension-less specifier whose sibling [.cljs] is a file
    resolves as the specifier with [.cljs] appended does.  With an absolute
    working directory and a specifier whose last segment is a plain name,
    both calls return the same result and leave the same plugin state. *)
Theorem resolveId_extensionless_equivalence id importer w st :
  JsString.startsWith "/" cwd = true ->
  plain_segment (last_segment id) = true ->
  hasExtension id = false ->
  hasExtension (id ++ ".cljs") = true ->
  fs_stat (fs w) (Path.resolve cwd [baseDir (plugin w) importer; id] ++ ".cljs")
    = Ok (Some st) ->
  st_isFile st = true ->
  fst (resolveId cwd id importer false w)
    = fst (resolveId cwd (id ++ ".cljs") importer false w)
  /\ plugin (snd (resolveId cwd id importer false w))
     = plugin (snd (resolveId cwd (id ++ ".cljs") importer false w)).
Proof.
  intros Hcwd Hplain Hext Hext' Hstat Hfile.
  destruct (resolve_probe_path cwd (baseDir (plugin w) importer) id Hcwd Hplain)
    as [Hsib Hself].
  rewrite !resolveId_cases.
  rewrite (candidate_probe_found cwd _ _ _ st Hext Hstat Hfile).
  rewrite (candidate_hasExtension cwd _ _ _ Hext').
  rewrite (test_cljs_app_r _ ".cljs" eq_refl).
  rewrite (test_cljs_app_r id ".cljs" eq_refl).
  cbn [plugin fs trace]. rewrite Hself, Hsib.
  destruct (projectRoot (plugin w)); cbn; auto.
Qed.

(** The hook with an importer whose lookup gives a string is [resolveId]
    on that importer, an [undefined] one read as the key [undefined]. *)
Lemma resolveIdHook_string id (importer : option string) scan w base :
  importerBase (plugin w) importer = Some base ->
  resolveIdHook cwd id importer scan w
  = resolveId cwd id (match importer with Some i => i | None => "undefined" end)
      scan w
  /\ baseDir (plugin w) (match importer with Some i => i | None => "undefined" end)
     = Path.dirname base.
Proof.
  intros Hbase. split.
  - unfold resolveIdHook. destruct scan; [reflexivity|].
    unfold_m. cbn. rewrite Hbase. reflexivity.
  - revert Hbase. unfold importerBase, baseDir.
    destruct importer as [i|].
    + destruct (compiledFileMap (plugin w) !! i) as [s|]; cbn.
      * intros [= <-]. reflexivity.
      * destruct (inherited_name i); [discriminate|]. intros [= <-]. reflexivity.
    + destruct (compiledFileMap (plugin w) !! "undefined") as [s|]; [|discriminate].
      cbn. destruct (JsString.truthy s); [|discriminate]. intros [= <-]. reflexivity.
Qed.

(** A string importer whose lookup is not an inherited member. *)
Lemma importerBase_own pl importer :
  inherited_name importer = false ->
  exists base, importerBase pl (Some importer) = Some base.
Proof.
  intros Hown. unfold importerBase. rewrite Hown.
  destruct (compiledFileMap pl !! importer); eauto.
Qed.

(** The hook with an importer whose lookup gives no string throws at
    once. *)
Lemma resolveIdHook_throws id (importer : option string) w :
  importerBase (plugin w) importer = None ->
  resolveIdHook cwd id importer false w = (Throw (TypeError "path"), w).
Proof.
  intros Hbase. unfold resolveIdHook. unfold_m. cbn. rewrite Hbase. reflexivity.
Qed.

(** The calls of [resolveId] for an importer whose lookup gives a string. *)
Lemma resolveId_footprint id importer scan w :
  let w' := snd (resolveId cwd id importer scan w) in
  let sibling := Path.resolve cwd [baseDir (plugin w) importer; id] ++ ".cljs" in
  fs w' = fs w
  /\ (trace w' = trace w \/ trace w' = EvStat sibling :: trace w)
  /\ (scan = true \/ hasExtension id = true -> trace w' = trace w)
  /\ (scan = false -> hasExtension id = false ->
      trace w' = EvStat sibling :: trace w).
Proof.
  intros w' sibling. subst w'.
  destruct scan; [cbn; repeat split; auto; discriminate|].
  rewrite resolveId_cases.
  destruct (candidate cwd id importer w) as [r w0] eqn:Hc.
  destruct (candidate_outcome _ _ _ _ _ Hc) as (Hpl & Hfs & Hext & Hnoext & _).
  fold sibling in Hnoext.
  assert (Hshape : forall (X : Result ResolveResult * World FS),
             fs (snd X) = fs w0 -> trace (snd X) = trace w0 ->
             fs (snd X) = fs w
             /\ (trace (snd X) = trace w \/ trace (snd X) = EvStat sibling :: trace w)
             /\ (false = true \/ hasExtension id = true -> trace (snd X) = trace w)
             /\ (false = false -> hasExtension id = false ->
                 trace (snd X) = EvStat sibling :: trace w)).
  { intros X HXfs HXtr. rewrite HXfs, HXtr, Hfs.
    destruct (hasExtension id) eqn:He.
    - destruct (Hext eq_refl) as [-> _]. repeat split; auto; discriminate.
    - rewrite (Hnoext eq_refl). repeat split; auto.
      intros [|]; discriminate. }
  destruct r as [id'|e]; [|apply Hshape; reflexivity].
  destruct (JsString.test_cljs id').
  - destruct (projectRoot (plugin w0)); apply Hshape; reflexivity.
  - destruct (JsString.truthy_opt _); [destruct (negb _)|]; apply Hshape; reflexivity.
Qed.

(** X3: what [resolveId] does to the file system, for any importer, a
    string or [undefined]: it never changes it, and it makes at most one
    call, a [stat] of the sibling [.cljs] of the resolved specifier.  It
    makes none during the scan, for a specifier with an extension, or
    when the importer makes [path.dirname] throw (an [undefined] importer,
    or one that names a member of [Object.prototype]); it makes exactly
    that one for an extension-less specifier outside the scan otherwise. *)
Theorem resolveId_fs_footprint id (importer : option string) scan w :
  let w' := snd (resolveIdHook cwd id importer scan w) in
  fs w' = fs w
  /\ (trace w' = trace w
      \/ exists base,
           importerBase (plugin w) importer = Some base
           /\ trace w' = EvStat (Path.resolve cwd [Path.dirname base; id]
                                   ++ ".cljs") :: trace w)
  /\ (scan = true \/ hasExtension id = true
      \/ importerBase (plugin w) importer = None -> trace w' = trace w)
  /\ (forall base,
        scan = false -> hasExtension id = false ->
        importerBase (plugin w) importer = Some base ->
        trace w' = EvStat (Path.resolve cwd [Path.dirname base; id] ++ ".cljs")
                   :: trace w).
Proof.
  intros w'. subst w'.
  destruct (importerBase (plugin w) importer) as [base|] eqn:Hbase.
  - destruct (resolveIdHook_string id importer scan w base Hbase) as [-> Hdir].
    pose proof (resolveId_footprint id
                  (match importer with Some i => i | None => "undefined" end)
                  scan w) as Hfoot.
    cbv zeta in Hfoot. rewrite Hdir in Hfoot.
    destruct Hfoot as (Hfs & Hor & Hnone & Hone).
    split; [exact Hfs|]. split.
    { destruct Hor as [Hsame|Hstat]; [left; exact Hsame | right; eauto]. }
    split.
    { intros [Hs|[He|Hn]]; [apply Hnone; auto | apply Hnone; auto | discriminate]. }
    intros base' Hs He [= <-]. apply Hone; assumption.
  - destruct scan.
    + cbn. repeat split; auto. intros base _ _ [=].
    + rewrite (resolveIdHook_throws id importer w Hbase). cbn.
      repeat split; auto. intros base _ _ [=].
Qed.

(** X4: from a compiled importer, a specifier that the probe leaves alone
    and that does not end in [.cljs] is rewritten to an absolute path
    against the directory of the importer's source when it starts with [.]
    or [/]; a bare specifier gives [undefined].  The registries are not
    touched. *)
Theorem resolveId_from_compiled_importer id importer w w0 srcFile :
  compiledFileMap (plugin w) !! importer = Some srcFile ->
  JsString.truthy srcFile = true ->
  candidate cwd id importer w = (Ok id, w0) ->
  JsString.test_cljs id = false ->
  resolveId cwd id importer false w
  = (Ok (if isLibraryImport id then RUndefined
         else RId (Path.resolve cwd [Path.dirname srcFile; id])), w0)
  /\ plugin w0 = plugin w.
Proof.
  intros Hsrc Htr Hc Ht.
  destruct (candidate_frame _ _ _ _ _ _ Hc) as [Hpl _].
  rewrite resolveId_cases, Hc, Ht. unfold baseDir, JsString.truthy_opt.
  rewrite Hsrc, Htr. cbn. rewrite Htr.
  destruct (isLibraryImport id); auto.
Qed.

(** X5: from a string importer that is not a compiled output and does
    not name a member of [Object.prototype], a specifier whose candidate
    does not end in [.cljs] always gives [undefined], and the registries
    are not touched. *)
Theorem resolveId_plain_importer_defers id importer w id' w0 :
  JsString.truthy_opt (compiledFileMap (plugin w) !! importer) = false ->
  inherited_name importer = false ->
  candidate cwd id importer w = (Ok id', w0) ->
  JsString.test_cljs id' = false ->
  resolveIdHook cwd id (Some importer) false w = (Ok RUndefined, w0)
  /\ plugin w0 = plugin w.
Proof.
  intros Himp Hown Hc Ht.
  destruct (importerBase_own (plugin w) importer Hown) as (base & Hbase).
  destruct (resolveIdHook_string id (Some importer) false w base Hbase) as [-> _].
  destruct (candidate_frame _ _ _ _ _ _ Hc) as [Hpl _].
  rewrite resolveId_cases, Hc, Ht, Himp. auto.
Qed.

(** X22: an importer that makes [path.dirname] throw.  Outside the scan,
    [resolveId] called without importer, as for an entry module, throws a
    [TypeError] unless [compiledFileMap] has an entry named [undefined];
    so does a call whose importer has no entry and names a member of
    [Object.prototype].  The throw comes before any probe and leaves the
    world as it was. *)
Theorem resolveId_invalid_importer_throws id w :
  (JsString.truthy_opt (compiledFileMap (plugin w) !! "undefined") = false ->
   resolveIdHook cwd id None false w = (Throw (TypeError "path"), w))
  /\ (forall importer,
        compiledFileMap (plugin w) !! importer = None ->
        inherited_name importer = true ->
        resolveIdHook cwd id (Some importer) false w
        = (Throw (TypeError "path"), w)).
Proof.
  split.
  - intros Hundef. apply resolveIdHook_throws. unfold importerBase.
    revert Hundef. unfold JsString.truthy_opt.
    destruct (compiledFileMap (plugin w) !! "undefined") as [s|]; [|reflexivity].
    intros ->. reflexivity.
  - intros importer Hnone Hinh. apply resolveIdHook_throws.
    unfold importerBase. rewrite Hnone, Hinh. reflexivity.
Qed.

(** X6: before [configResolved] has given a project root, a call whose
    candidate ends in [.cljs] throws the [TypeError] of [path.relative]
    and registers nothing. *)
Theorem resolveId_before_configResolved id importer w id' w0 :
  projectRoot (plugin w) = None ->
  candidate cwd id importer w = (Ok id', w0) ->
  JsString.test_cljs id' = true ->
  resolveId cwd id importer false w = (Throw (TypeError "from"), w0)
  /\ plugin w0 = plugin w.
Proof.
  intros Hroot Hc Ht.
  destruct (candidate_frame _ _ _ _ _ _ Hc) as [Hpl _].
  rewrite resolveId_cases, Hc, Ht, Hpl, Hroot. auto.
Qed.


(** X8: a registration writes one entry in each registry and nothing
    else: the source maps to the output with timestamp 0, the output maps
    back to the source, and every other key of both maps is as before. *)
Theorem resolveId_registers_pair id importer w id' w0 root :
  candidate cwd id importer w = (Ok id', w0) ->
  JsString.test_cljs id' = true ->
  projectRoot (plugin w) = Some root ->
  let src := Path.resolve cwd [baseDir (plugin w) importer; id'] in
  let out := outPathOf cwd root (outputDir (plugin w)) src in
  let pl' := plugin (snd (resolveId cwd id importer false w)) in
  srcFileMap pl' !! src = Some (out, 0%Z)
  /\ compiledFileMap pl' !! out = Some src
  /\ (forall k, k <> src -> srcFileMap pl' !! k = srcFileMap (plugin w) !! k)
  /\ (forall k, k <> out ->
        compiledFileMap pl' !! k = compiledFileMap (plugin w) !! k).
Proof.
  intros Hc Ht Hroot src out pl'. subst pl'.
  destruct (candidate_frame _ _ _ _ _ _ Hc) as [Hpl _].
  rewrite resolveId_cases, Hc, Ht, Hpl, Hroot. cbn. fold src out.
  rewrite !lookup_insert_eq. repeat split; auto.
  - intros k Hk. apply lookup_insert_ne. congruence.
  - intros k Hk. apply lookup_insert_ne. congruence.
Qed.

End ResolveProps.

Section ResolveMore.

Context {FS : Type} `{FileSystem FS}.
Variable cwd : string.

Implicit Types (w : World FS) (id importer : string).

(** X20: the probe takes only a file.  For a string importer that does
    not name a member of [Object.prototype]: when an extension-less
    specifier that does not end in [.cljs] has no sibling [.cljs], or has
    one that is not a file (a directory), the call costs one [stat],
    registers nothing, and gives the absolute path for a relative or
    absolute specifier imported from a compiled output, [undefined]
    otherwise. *)
Theorem resolveId_probe_miss id importer w :
  inherited_name importer = false ->
  hasExtension id = false ->
  JsString.test_cljs id = false ->
  let sibling := Path.resolve cwd [baseDir (plugin w) importer; id] ++ ".cljs" in
  (fs_stat (fs w) sibling = Ok None
   \/ exists st, fs_stat (fs w) sibling = Ok (Some st) /\ st_isFile st = false) ->
  resolveIdHook cwd id (Some importer) false w
  = (Ok (if JsString.truthy_opt (compiledFileMap (plugin w) !! importer)
            && negb (isLibraryImport id)
         then RId (Path.resolve cwd [baseDir (plugin w) importer; id])
         else RUndefined),
     add_events [EvStat sibling] w).
Proof.
  intros Hown Hext Ht sibling Hmiss.
  destruct (importerBase_own (plugin w) importer Hown) as (base & Hbase).
  destruct (resolveIdHook_string cwd id (Some importer) false w base Hbase)
    as [-> _].
  assert (Hc : candidate cwd id importer w = (Ok id, add_events [EvStat sibling] w)).
  { unfold candidate, isFile, statSync_noThrow. unfold_m. cbn.
    rewrite Hext. cbn. fold sibling.
    destruct Hmiss as [-> | (st & -> & Hfile)]; cbn; [|rewrite Hfile]; reflexivity. }
  rewrite resolveId_cases, Hc, Ht.
  destruct (JsString.truthy_opt _); [destruct (isLibraryImport id)|]; reflexivity.
Qed.

(** The probe depends on the plugin only through the base directory. *)
Lemma candidate_congr id importer w1 w2 :
  baseDir (plugin w1) importer = baseDir (plugin w2) importer ->
  fs w1 = fs w2 ->
  fst (candidate cwd id importer w1) = fst (candidate cwd id importer w2).
Proof.
  intros Hbase Hfs.
  unfold candidate, isFile, statSync_noThrow. unfold_m. cbn.
  rewrite Hbase.
  destruct (hasExtension id); cbn; [reflexivity|].
  rewrite Hfs.
  destruct (fs_stat _ _) as [[st|]|e]; cbn; [destruct (st_isFile st)|..]; reflexivity.
Qed.

(** The result of [resolveId] and the plugin state it leaves, as
    functions of the outcome of the probe and of the plugin state. *)
Lemma resolveId_summary id importer w :
  let pl := plugin w in
  let base := baseDir pl importer in
  let c := fst (candidate cwd id importer w) in
  fst (resolveId cwd id importer false w)
  = match c with
    | Throw e => Throw e
    | Ok id' =>
        if JsString.test_cljs id' then
          match projectRoot pl with
          | None => Throw (TypeError "from")
          | Some root =>
              Ok (RId (outPathOf cwd root (outputDir pl)
                         (Path.resolve cwd [base; id'])))
          end
        else if JsString.truthy_opt (compiledFileMap pl !! importer) then
          if negb (isLibraryImport id')
          then Ok (RId (Path.resolve cwd [base; id]))
          else Ok RUndefined
        else Ok RUndefined
    end
  /\ plugin (snd (resolveId cwd id importer false w))
     = match c, projectRoot pl with
       | Ok id', Some root =>
           if JsString.test_cljs id' then
             set_compiledFile
               (outPathOf cwd root (outputDir pl) (Path.resolve cwd [base; id']))
               (Path.resolve cwd [base; id'])
               (set_srcFile (Path.resolve cwd [base; id'])
                  (outPathOf cwd root (outputDir pl)
                     (Path.resolve cwd [base; id'])) 0 pl)
           else pl
       | _, _ => pl
       end
  /\ fs (snd (resolveId cwd id importer false w)) = fs w.
Proof.
  intros pl base c. subst pl base c.
  rewrite resolveId_cases.
  destruct (candidate cwd id importer w) as [r w0] eqn:Hc.
  destruct (candidate_frame _ _ _ _ _ _ Hc) as [Hpl Hfs].
  cbn [fst]. destruct r as [id'|e]; [|cbn; rewrite Hpl; auto].
  destruct (JsString.test_cljs id').
  - rewrite Hpl. destruct (projectRoot (plugin w)); cbn; rewrite ?Hpl; auto.
  - destruct (projectRoot (plugin w));
      (destruct (JsString.truthy_opt _); [destruct (negb _)|]); cbn; auto.
Qed.

(** X21: resolving twice is resolving once.  Unless the importer is the
    very path the first call returned, a second call of [resolveId] with
    the same arguments, on the world the first call left, returns the same
    result and leaves the plugin state the first call left. *)
Theorem resolveId_idempotent id importer scan w :
  let first := resolveId cwd id importer scan w in
  let second := resolveId cwd id importer scan (snd first) in
  fst first <> Ok (RId importer) ->
  fst second = fst first /\ plugin (snd second) = plugin (snd first).
Proof.
  intros first second Hne. subst first second.
  destruct scan; [cbn; auto|].
  destruct (resolveId_summary id importer w) as (Hres & Hpl & Hfs).
  cbv zeta in Hres, Hpl.
  set (w1 := snd (resolveId cwd id importer false w)) in *.
  destruct (resolveId_summary id importer w1) as (Hres1 & Hpl1 & _).
  cbv zeta in Hres1, Hpl1.
  set (c := fst (candidate cwd id importer w)) in *.
  (* the probe sees the same base directory and the same files *)
  assert (Hkeep : compiledFileMap (plugin w1) !! importer
                  = compiledFileMap (plugin w) !! importer
                  /\ projectRoot (plugin w1) = projectRoot (plugin w)
                  /\ outputDir (plugin w1) = outputDir (plugin w)).
  { rewrite Hpl. clear Hres1 Hpl1.
    destruct c as [id'|e]; [|auto].
    destruct (projectRoot (plugin w)) as [root|] eqn:Hroot; [|auto].
    destruct (JsString.test_cljs id') eqn:Ht; [|auto].
    cbn. rewrite Hroot. split; [|auto].
    apply lookup_insert_ne. intros Heq. apply Hne.
    rewrite Hres, Heq. reflexivity. }
  destruct Hkeep as (Hcm & Hroot1 & Hout1).
  assert (Hbase : baseDir (plugin w1) importer = baseDir (plugin w) importer).
  { unfold baseDir. rewrite Hcm. reflexivity. }
  pose proof (candidate_congr id importer w1 w Hbase Hfs) as Hcand.
  rewrite Hres1, Hpl1, Hcand, Hbase, Hcm, Hroot1, Hout1.
  split; [symmetry; exact Hres|].
  rewrite Hpl. clear Hres Hpl Hres1 Hpl1 Hne Hcand.
  fold c. destruct c as [id'|e]; [|reflexivity].
  destruct (projectRoot (plugin w)) as [root|]; [|reflexivity].
  destruct (JsString.test_cljs id'); [|reflexivity].
  unfold set_compiledFile, set_srcFile. cbn.
  rewrite !insert_insert_eq. reflexivity.
Qed.

End ResolveMore.

(** *** More on [load] *)

Section LoadProps.

Context {FS : Type} `{FileSystem FS}.
Variable cwd : string.
Variable compileString : string -> string -> Result string.

Implicit Types (w : World FS) (id : string).

(** [load] by the answers of the file system and of the compiler. *)
Lemma load_cases id w :
  load compileString id w =
  match load_begin id w with
  | (Ok (LoadDone r), w0) => (Ok r, w0)
  | (Ok (LoadAwait p), w0) =>
      load_resume p (compileString (p_code p) (p_srcFile p)) w0
  | (Throw e, w0) => (Throw e, w0)
  end.
Proof.
  unfold load, bind, ret.
  destruct (load_begin id w) as [[[r|p]|e] w0]; reflexivity.
Qed.

(** A load that does not stop at the compiler leaves the plugin and the
    file system as they were and calls neither the compiler nor a write. *)
Lemma load_begin_frame id w s w0 :
  load_begin id w = (s, w0) ->
  plugin w0 = plugin w /\ fs w0 = fs w
  /\ exists evs, trace w0 = (evs ++ trace w)%list
                 /\ count_events is_writeFile evs = 0
                 /\ count_events is_compile evs
                    = match s with Ok (LoadAwait _) => 1 | _ => 0 end.
Proof.
  rewrite load_begin_cases.
  destruct (compiledFileMap (plugin w) !! id) as [src|];
    [|destruct (inherited_name id); intros [= <- <-]; repeat split;
      exists []; auto].
  destruct (negb _); [intros [= <- <-]; repeat split; exists []; auto|].
  destruct (fs_stat _ _) as [[st|]|e];
    [|intros [= <- <-]; repeat split; eexists [_]; auto..].
  destruct (_ <? _)%Z.
  - destruct (fs_read _ _); intros [= <- <-]; repeat split;
      [eexists [_; _; _] | eexists [_; _]]; auto.
  - destruct (fs_read _ _); intros [= <- <-]; repeat split;
      eexists [_; _]; auto.
Qed.

(** The second half of a load calls no compiler and writes at most once. *)
Lemma load_resume_events p (compiled : Result string) w :
  exists evs,
    trace (snd (load_resume p compiled w)) = (evs ++ trace w)%list
    /\ count_events is_compile evs = 0
    /\ count_events is_writeFile evs <= 1.
Proof.
  rewrite load_resume_cases.
  destruct compiled as [js|e]; [|exists []; cbn; auto].
  cbn. destruct (fs_mkdir _ _) as [f1|e]; [|eexists [_]; cbn; auto].
  destruct (fs_write _ _ _) as [f2|e].
  - eexists [_; _; _]. cbn. auto.
  - eexists [_; _]. cbn. auto.
Qed.

(** X9: a load calls the compiler at most once and writes at most once;
    it calls the compiler exactly when its first half stops at the
    [await], that is when the output is registered, the [stat] of the
    source succeeds with a modification time above the recorded one, and
    the source can be read. *)
Theorem load_compiles_at_most_once id w :
  let w' := snd (load compileString id w) in
  count_events is_compile (new_events w w')
  = match fst (load_begin id w) with Ok (LoadAwait _) => 1 | _ => 0 end
  /\ count_events is_writeFile (new_events w w')
     <= count_events is_compile (new_events w w').
Proof.
  intros w'. subst w'. rewrite load_cases.
  destruct (load_begin id w) as [s w0] eqn:Hb.
  destruct (load_begin_frame _ _ _ _ Hb) as (_ & _ & evs & Htr & Hwr & Hco).
  destruct s as [[r|p]|e]; cbn [fst snd].
  - rewrite (new_events_add _ _ _ Htr), Hwr, Hco. auto.
  - destruct (load_resume_events p (compileString (p_code p) (p_srcFile p)) w0)
      as (evs1 & Htr1 & Hco1 & Hwr1).
    assert (Htr' : trace (snd (load_resume p
                                 (compileString (p_code p) (p_srcFile p)) w0))
                   = ((evs1 ++ evs) ++ trace w)%list).
    { rewrite Htr1, Htr, app_assoc. reflexivity. }
    rewrite (new_events_add _ _ _ Htr'), !count_events_app, Hco, Hco1, Hwr.
    split; [reflexivity | lia].
  - rewrite (new_events_add _ _ _ Htr), Hwr, Hco. auto.
Qed.

(** What a load that stops at the compiler has seen. *)
Lemma load_begin_await_inv id w p w0 :
  load_begin id w = (Ok (LoadAwait p), w0) ->
  p_id p = id
  /\ compiledFileMap (plugin w) !! id = Some (p_srcFile p)
  /\ JsString.truthy (p_srcFile p) = true
  /\ fs_stat (fs w) (p_srcFile p)
     = Ok (Some {| st_isFile := match fs_stat (fs w) (p_srcFile p) with
                                | Ok (Some st) => st_isFile st
                                | _ => false
                                end;
                   st_mtimeMs := p_mtimeMs p |})
  /\ (modTimeOf (plugin w) (p_srcFile p) < p_mtimeMs p)%Z
  /\ fs_read (fs w) (p_srcFile p) = Ok (p_code p)
  /\ plugin w0 = plugin w /\ fs w0 = fs w.
Proof.
  rewrite load_begin_cases.
  destruct (compiledFileMap (plugin w) !! id) as [src|] eqn:Hsrc;
    [|destruct (inherited_name id); discriminate].
  destruct (JsString.truthy src) eqn:Htr; [|discriminate]. cbn [negb].
  destruct (fs_stat (fs w) src) as [[st|]|e] eqn:Hst; try discriminate.
  destruct (modTimeOf (plugin w) src <? st_mtimeMs st)%Z eqn:Hlt.
  - destruct (fs_read (fs w) src) as [code|e] eqn:Hrd; [|discriminate].
    intros [= <- <-]. cbn. rewrite Hst. destruct st as [isf m]. cbn in *.
    apply Z.ltb_lt in Hlt. auto 10.
  - destruct (fs_read (fs w) id); discriminate.
Qed.

(** The second half of a load either leaves the plugin state as it was,
    or has made the directory, written the compiled text and set the
    record of the source to the output and the observed time. *)
Lemma load_resume_plugin p (compiled : Result string) w :
  plugin (snd (load_resume p compiled w)) = plugin w
  \/ exists js f1 f2,
       compiled = Ok js
       /\ fs_mkdir (fs w) (Path.dirname (p_id p)) = Ok f1
       /\ fs_write f1 (p_id p) js = Ok f2
       /\ fs (snd (load_resume p compiled w)) = f2
       /\ plugin (snd (load_resume p compiled w))
          = set_srcFile (p_srcFile p) (p_id p) (p_mtimeMs p) (plugin w).
Proof.
  rewrite load_resume_cases.
  destruct compiled as [js|e]; [|left; reflexivity]. cbn.
  destruct (fs_mkdir _ _) as [f1|e] eqn:Hmk; [|left; reflexivity].
  destruct (fs_write _ _ _) as [f2|e] eqn:Hwr; [|left; reflexivity].
  right. exists js, f1, f2. auto.
Qed.

Lemma modTimeOf_set_srcFile src out t pl s :
  modTimeOf (set_srcFile src out t pl) s
  = if decide (src = s) then t else modTimeOf pl s.
Proof.
  unfold modTimeOf, set_srcFile. cbn. rewrite lookup_insert.
  destruct (decide (src = s)); reflexivity.
Qed.

(** X10: a [load] that runs from its start to its end with no other call
    in between never lowers a recorded time and never touches
    [compiledFileMap], [projectRoot] or [outputDir]: for every source the
    time recorded after the load is at least the one recorded before.
    (The second half of a load that waited for the compiler while another
    load finished can lower it, see [load_resume_lowers_record].) *)
Theorem load_timestamp_monotone id w :
  let w' := snd (load compileString id w) in
  (forall s, (modTimeOf (plugin w) s <= modTimeOf (plugin w') s)%Z)
  /\ compiledFileMap (plugin w') = compiledFileMap (plugin w)
  /\ projectRoot (plugin w') = projectRoot (plugin w)
  /\ outputDir (plugin w') = outputDir (plugin w).
Proof.
  intros w'. subst w'. rewrite load_cases.
  destruct (load_begin id w) as [s w0] eqn:Hb.
  destruct (load_begin_frame _ _ _ _ Hb) as (Hpl & _).
  destruct s as [[r|p]|e]; cbn [snd]; rewrite ?Hpl;
    try (repeat split; auto; intros; lia).
  destruct (load_begin_await_inv _ _ _ _ Hb) as (_ & _ & _ & _ & Hlt & _).
  destruct (load_resume_plugin p (compileString (p_code p) (p_srcFile p)) w0)
    as [-> | (js & f1 & f2 & _ & _ & _ & _ & ->)]; rewrite Hpl.
  - repeat split; auto; intros; lia.
  - repeat split; auto. intros s. rewrite modTimeOf_set_srcFile.
    destruct (decide (p_srcFile p = s)) as [<-|]; lia.
Qed.

(** The scope of the previous theorem: the load of [a] that stopped at the
    compiler with time 5 resumes after [a.cljs] was edited and reloaded
    with time 9, and puts the record back to 5. *)
Example load_resume_lowers_record :
  modTimeOf (plugin Cases.reloaded) "/p/src/a.cljs" = 9%Z
  /\ modTimeOf
       (plugin (snd (load_resume Cases.pending_a (Ok "js:(ns a)") Cases.reloaded)))
       "/p/src/a.cljs" = 5%Z.
Proof. split; vm_compute; reflexivity. Qed.

(** X11: the record of a source is advanced only behind a successful
    write.  A load that changes the plugin state has read the source,
    got a compiled text, made the directory and written that text at the
    output path; the change is the record of the source, set to the output
    path and to the modification time the [stat] at the start returned. *)
Theorem load_advances_only_after_write id w :
  let w' := snd (load compileString id w) in
  plugin w' <> plugin w ->
  exists src st code js f1 f2,
    compiledFileMap (plugin w) !! id = Some src
    /\ fs_stat (fs w) src = Ok (Some st)
    /\ fs_read (fs w) src = Ok code
    /\ compileString code src = Ok js
    /\ fs_mkdir (fs w) (Path.dirname id) = Ok f1
    /\ fs_write f1 id js = Ok f2
    /\ fs w' = f2
    /\ plugin w' = set_srcFile src id (st_mtimeMs st) (plugin w).
Proof.
  intros w'. subst w'. rewrite load_cases.
  destruct (load_begin id w) as [s w0] eqn:Hb.
  destruct (load_begin_frame _ _ _ _ Hb) as (Hpl & Hfs & _).
  destruct s as [[r|p]|e]; cbn [snd]; try (intros Hne; congruence).
  destruct (load_begin_await_inv _ _ _ _ Hb)
    as (Hid & Hsrc & _ & Hst & _ & Hrd & _).
  destruct (load_resume_plugin p (compileString (p_code p) (p_srcFile p)) w0)
    as [-> | (js & f1 & f2 & Hc & Hmk & Hwr & Hf & ->)];
    [intros Hne; congruence|].
  intros _. rewrite Hfs, Hid in Hmk. rewrite Hid in Hwr.
  eexists (p_srcFile p), _, (p_code p), js, f1, f2.
  split; [exact Hsrc|]. split; [exact Hst|]. split; [exact Hrd|].
  split; [exact Hc|]. split; [exact Hmk|]. split; [exact Hwr|].
  split; [exact Hf|]. rewrite Hpl, Hid. reflexivity.
Qed.

(** X12: an output whose source has been deleted cannot be loaded: the
    [stat] of the source throws [ENOENT], which is all the load does. *)
Theorem load_source_missing id src w :
  compiledFileMap (plugin w) !! id = Some src ->
  JsString.truthy src = true ->
  fs_stat (fs w) src = Ok None ->
  load compileString id w
  = (Throw (FsError "ENOENT" src), add_events [EvStat src] w).
Proof.
  intros Hsrc Htr Hst.
  rewrite load_cases, load_begin_cases, Hsrc, Htr, Hst. reflexivity.
Qed.

(** X13: the record holds the modification time seen before the
    compiler ran, not the time the compilation ended.  After the second
    half of a load has succeeded, a load of the same output stops at the
    compiler again exactly when the source's modification time is above
    the one the first half saw, so an edit made during the compilation is
    compiled by the next load; a time that is equal or older gives the
    artifact as it is. *)
Theorem load_after_compile p (compiled : Result string) w2 r w3 w4 st4 :
  load_resume p compiled w2 = (Ok r, w3) ->
  compiledFileMap (plugin w2) !! p_id p = Some (p_srcFile p) ->
  JsString.truthy (p_srcFile p) = true ->
  plugin w4 = plugin w3 ->
  fs_stat (fs w4) (p_srcFile p) = Ok (Some st4) ->
  ((p_mtimeMs p < st_mtimeMs st4)%Z ->
   forall code4, fs_read (fs w4) (p_srcFile p) = Ok code4 ->
     load_begin (p_id p) w4
     = (Ok (LoadAwait {| p_id := p_id p; p_srcFile := p_srcFile p;
                         p_mtimeMs := st_mtimeMs st4; p_code := code4 |}),
        add_events [EvCompile code4 (p_srcFile p); EvReadFile (p_srcFile p);
                    EvStat (p_srcFile p)] w4))
  /\ ((st_mtimeMs st4 <= p_mtimeMs p)%Z ->
      load compileString (p_id p) w4
      = (loadResultOf (fs_read (fs w4) (p_id p)),
         add_events [EvReadFile (p_id p); EvStat (p_srcFile p)] w4)).
Proof.
  intros Hres Hsrc Htr Hpl Hst.
  assert (Hpl3 : plugin w3
                 = set_srcFile (p_srcFile p) (p_id p) (p_mtimeMs p) (plugin w2)).
  { revert Hres. rewrite load_resume_cases.
    destruct compiled as [js|e]; [|discriminate]. cbn.
    destruct (fs_mkdir _ _) as [f1|e]; [|discriminate].
    destruct (fs_write _ _ _) as [f2|e]; [|discriminate].
    intros [= _ <-]. reflexivity. }
  assert (Hcm : compiledFileMap (plugin w4) !! p_id p = Some (p_srcFile p)).
  { rewrite Hpl, Hpl3. exact Hsrc. }
  assert (Hmt : modTimeOf (plugin w4) (p_srcFile p) = p_mtimeMs p).
  { rewrite Hpl, Hpl3, modTimeOf_set_srcFile.
    destruct (decide (p_srcFile p = p_srcFile p)); congruence. }
  split.
  - intros Hlt code4 Hrd.
    rewrite load_begin_cases, Hcm, Htr, Hst, Hmt. cbn [negb].
    apply Z.ltb_lt in Hlt. rewrite Hlt, Hrd. reflexivity.
  - intros Hle.
    apply (load_fresh compileString _ _ _ st4 Hcm Htr Hst).
    rewrite Hmt. apply Z.ltb_ge. exact Hle.
Qed.

End LoadProps.

(** *** The hooks together *)

Section Together.

Context {FS : Type} `{FileSystem FS}.
Variable cwd : string.
Variable compileString : string -> string -> Result string.

Implicit Types (w : World FS) (id importer : string).

(** The plugin state a registration leaves. *)
Lemma resolveId_registered id importer w id' w0 root :
  candidate cwd id importer w = (Ok id', w0) ->
  JsString.test_cljs id' = true ->
  projectRoot (plugin w) = Some root ->
  let src := Path.resolve cwd [baseDir (plugin w) importer; id'] in
  let out := outPathOf cwd root (outputDir (plugin w)) src in
  resolveId cwd id importer false w
  = (Ok (RId out),
     {| plugin := set_compiledFile out src (set_srcFile src out 0 (plugin w));
        fs := fs w; trace := trace w0 |}).
Proof.
  intros Hc Ht Hroot src out.
  destruct (candidate_frame _ _ _ _ _ _ Hc) as [Hpl Hfs].
  rewrite resolveId_cases, Hc, Ht, Hpl, Hroot, Hfs. reflexivity.
Qed.

(** X14: the first load of what [resolveId] has just registered.  If the
    source has a modification time above 0 and every call succeeds, the
    load compiles the text of the source once, under the source's path,
    writes the result at the output path [resolveId] returned, records the
    modification time it saw, and returns what it reads back. *)
Theorem resolveId_then_cold_load id importer w id' w0 root w2 st code js f1 f2 :
  candidate cwd id importer w = (Ok id', w0) ->
  JsString.test_cljs id' = true ->
  projectRoot (plugin w) = Some root ->
  let src := Path.resolve cwd [baseDir (plugin w) importer; id'] in
  let out := outPathOf cwd root (outputDir (plugin w)) src in
  plugin w2 = plugin (snd (resolveId cwd id importer false w)) ->
  fs_stat (fs w2) src = Ok (Some st) ->
  (0 < st_mtimeMs st)%Z ->
  fs_read (fs w2) src = Ok code ->
  compileString code src = Ok js ->
  fs_mkdir (fs w2) (Path.dirname out) = Ok f1 ->
  fs_write f1 out js = Ok f2 ->
  exists w3,
    load compileString out w2 = (loadResultOf (fs_read f2 out), w3)
    /\ fs w3 = f2
    /\ srcFileMap (plugin w3) !! src = Some (out, st_mtimeMs st)
    /\ new_events w2 w3
       = [EvReadFile out; EvWriteFile out js; EvMkdir (Path.dirname out);
          EvCompile code src; EvReadFile src; EvStat src].
Proof.
  intros Hc Ht Hroot src out Hpl Hst Hpos Hrd Hcomp Hmk Hwr.
  rewrite (resolveId_registered _ _ _ _ _ _ Hc Ht Hroot) in Hpl.
  cbn [snd plugin] in Hpl. fold src out in Hpl.
  assert (Hcm : compiledFileMap (plugin w2) !! out = Some src).
  { rewrite Hpl. cbn. apply lookup_insert_eq. }
  assert (Hmt : modTimeOf (plugin w2) src = 0%Z).
  { rewrite Hpl. unfold modTimeOf. cbn. rewrite lookup_insert_eq. reflexivity. }
  assert (Htr : JsString.truthy src = true) by apply resolve_truthy.
  unfold load, bind.
  rewrite load_begin_cases, Hcm, Htr, Hst, Hmt. cbn [negb].
  apply Z.ltb_lt in Hpos. rewrite Hpos, Hrd.
  rewrite load_resume_cases. cbn [p_code p_srcFile p_id p_mtimeMs].
  rewrite Hcomp. cbn [fs add_events]. rewrite Hmk, Hwr.
  eexists. split; [reflexivity|]. split; [reflexivity|]. split.
  - cbn. apply lookup_insert_eq.
  - apply new_events_add. reflexivity.
Qed.

(** X15: a source whose modification time is not above 0 is never
    compiled.  0 is also the time recorded for a source that has not been
    compiled, so the first load of such a source, just registered by
    [resolveId], calls no compiler and only reads the output path. *)
Theorem resolveId_then_epoch_source id importer w id' w0 root w2 st :
  candidate cwd id importer w = (Ok id', w0) ->
  JsString.test_cljs id' = true ->
  projectRoot (plugin w) = Some root ->
  let src := Path.resolve cwd [baseDir (plugin w) importer; id'] in
  let out := outPathOf cwd root (outputDir (plugin w)) src in
  plugin w2 = plugin (snd (resolveId cwd id importer false w)) ->
  fs_stat (fs w2) src = Ok (Some st) ->
  (st_mtimeMs st <= 0)%Z ->
  load compileString out w2
  = (loadResultOf (fs_read (fs w2) out),
     add_events [EvReadFile out; EvStat src] w2).
Proof.
  intros Hc Ht Hroot src out Hpl Hst Hle.
  rewrite (resolveId_registered _ _ _ _ _ _ Hc Ht Hroot) in Hpl.
  cbn [snd plugin] in Hpl. fold src out in Hpl.
  apply (load_fresh compileString out src w2 st).
  - rewrite Hpl. cbn. apply lookup_insert_eq.
  - apply resolve_truthy.
  - exact Hst.
  - rewrite Hpl. unfold modTimeOf. cbn. rewrite lookup_insert_eq.
    apply Z.ltb_ge. exact Hle.
Qed.

(** X16: the hot update of a source that [resolveId] has registered asks
    the module graph for the output path that [resolveId] returned: when
    the graph has a module there it is told of the change and the module
    is appended to the pending ones, otherwise the pending modules are
    returned as they are and the graph is left alone. *)
Theorem resolveId_then_handleHotUpdate {G Mod : Type} `{ModuleGraph G Mod}
    id importer w id' w0 root (server : G) (modules : list Mod) :
  candidate cwd id importer w = (Ok id', w0) ->
  JsString.test_cljs id' = true ->
  projectRoot (plugin w) = Some root ->
  let src := Path.resolve cwd [baseDir (plugin w) importer; id'] in
  let out := outPathOf cwd root (outputDir (plugin w)) src in
  fst (resolveId cwd id importer false w) = Ok (RId out)
  /\ handleHotUpdate (plugin (snd (resolveId cwd id importer false w)))
       src server modules
     = match getModuleById server out with
       | Some module =>
           (Ok (Some (modules ++ [module])%list), onFileChange server out)
       | None => (Ok (Some modules), server)
       end.
Proof.
  intros Hc Ht Hroot src out.
  rewrite (resolveId_registered _ _ _ _ _ _ Hc Ht Hroot). fold src out.
  split; [reflexivity|].
  unfold handleHotUpdate. cbn [snd plugin set_compiledFile set_srcFile srcFileMap].
  assert (Htr : JsString.truthy out = true) by apply outPathOf_truthy.
  rewrite lookup_insert_eq, Htr. reflexivity.
Qed.

(** The entries of both registries stay through a step of the session. *)
Lemma session_step_keeps_entries w w' :
  session_step cwd w w' ->
  (forall k, is_Some (srcFileMap (plugin w) !! k) ->
             is_Some (srcFileMap (plugin w') !! k))
  /\ (forall k v, compiledFileMap (plugin w) !! k = Some v ->
                  is_Some (compiledFileMap (plugin w') !! k)).
Proof.
  assert (Hid : forall pl : Plugin,
             (forall k, is_Some (srcFileMap pl !! k) -> is_Some (srcFileMap pl !! k))
             /\ (forall k v, compiledFileMap pl !! k = Some v ->
                             is_Some (compiledFileMap pl !! k))).
  { intros pl. split; eauto. }
  destruct 1 as [id importer scan w | id w | p compiled w | w f t].
  - destruct scan; [apply Hid|].
    rewrite resolveId_cases.
    destruct (candidate cwd id importer w) as [[id'|e] w0] eqn:Hc;
      destruct (candidate_frame _ _ _ _ _ _ Hc) as [Hpl _];
      [|cbn; rewrite Hpl; apply Hid].
    destruct (JsString.test_cljs id').
    + destruct (projectRoot (plugin w0)); cbn; rewrite Hpl; [|apply Hid].
      split.
      * intros k Hk. rewrite lookup_insert. case_decide; eauto.
      * intros k v Hk. rewrite lookup_insert. case_decide; eauto.
    + destruct (JsString.truthy_opt _); [destruct (negb _)|];
        cbn; rewrite Hpl; apply Hid.
  - destruct (load_begin id w) as [s w0] eqn:Hb. cbn.
    assert (Hpl : plugin w0 = plugin w).
    { revert Hb. rewrite load_begin_cases.
      destruct (compiledFileMap (plugin w) !! id) as [src|];
        [|destruct (inherited_name id); intros [= _ <-]; auto].
      destruct (negb _); [intros [= _ <-]; auto|].
      destruct (fs_stat _ _) as [[st|]|e]; [|intros [= _ <-]; auto..].
      destruct (_ <? _)%Z; [destruct (fs_read _ _)|]; intros [= _ <-]; auto. }
    rewrite Hpl. apply Hid.
  - rewrite load_resume_cases.
    destruct compiled as [js|e]; [|apply Hid]. cbn.
    destruct (fs_mkdir _ _) as [f1|e]; [|apply Hid].
    destruct (fs_write _ _ _) as [f2|e]; [|apply Hid].
    cbn. split; [|eauto].
    intros k Hk. rewrite lookup_insert. case_decide; eauto.
  - apply Hid.
Qed.

(** X17: no hook ever removes an entry.  Through any session ([resolveId]
    calls, loads up to and from their [await] with any outcome of the
    compiler, changes of the file system) every source that has a record
    keeps one, and every output that [load] knows stays known. *)
Theorem session_registries_grow w w' :
  rtc (session_step cwd) w w' ->
  (forall k, is_Some (srcFileMap (plugin w) !! k) ->
             is_Some (srcFileMap (plugin w') !! k))
  /\ (forall k, is_Some (compiledFileMap (plugin w) !! k) ->
                is_Some (compiledFileMap (plugin w') !! k)).
Proof.
  induction 1 as [w | w wmid w' Hstep _ [IHs IHc]]; [auto|].
  destruct (session_step_keeps_entries _ _ Hstep) as [Hs Hc].
  split.
  - intros k Hk. apply IHs, Hs, Hk.
  - intros k [v Hk]. apply IHc. exact (Hc k v Hk).
Qed.

End Together.

(** *** The registries stay consistent *)

Section Consistency.

Context {FS : Type} `{FileSystem FS}.
Variable cwd : string.

Implicit Types (w : World FS) (ps : list Pending).

Lemma pending_ok_config pl pl' p :
  projectRoot pl' = projectRoot pl ->
  outputDir pl' = outputDir pl ->
  pending_ok cwd pl p -> pending_ok cwd pl' p.
Proof. intros Hr Ho (root & Hroot & Hid). exists root. rewrite Hr, Ho. auto. Qed.

Lemma registry_ok_register pl root src :
  projectRoot pl = Some root ->
  registry_ok cwd pl ->
  registry_ok cwd
    (set_compiledFile (outPathOf cwd root (outputDir pl) src) src
       (set_srcFile src (outPathOf cwd root (outputDir pl) src) 0 pl)).
Proof.
  intros Hroot Hok out s. cbn. rewrite lookup_insert.
  destruct (decide (outPathOf cwd root (outputDir pl) src = out)) as [<-|Hne].
  - intros [= <-]. split; [eauto|]. rewrite lookup_insert_eq. eauto.
  - intros Hlook. destruct (Hok out s Hlook) as [(root' & Hroot' & Hout) (t & Ht)].
    split; [eauto|].
    rewrite lookup_insert_ne; [eauto|].
    intros <-. apply Hne. rewrite Hout. congruence.
Qed.

Lemma registry_ok_advance pl p t :
  registry_ok cwd pl ->
  pending_ok cwd pl p ->
  registry_ok cwd (set_srcFile (p_srcFile p) (p_id p) t pl).
Proof.
  intros Hok (root & Hroot & Hid) out s. cbn. intros Hlook.
  destruct (Hok out s Hlook) as [(root' & Hroot' & Hout) (t' & Ht')].
  split; [eauto|].
  rewrite lookup_insert. destruct (decide (p_srcFile p = s)) as [<-|]; [|eauto].
  exists t. rewrite Hid, Hout. congruence.
Qed.

Lemma async_step_consistent x y :
  async_step cwd x y -> consistent cwd x -> consistent cwd y.
Proof.
  unfold consistent.
  destruct 1 as [id importer scan w ps | id w ps | p compiled w ps Hin | w ps f t];
    cbn [fst snd]; intros [Hok Hps].
  - destruct scan; [auto|].
    rewrite resolveId_cases.
    destruct (candidate cwd id importer w) as [[id'|e] w0] eqn:Hc;
      destruct (candidate_frame _ _ _ _ _ _ Hc) as [Hpl _];
      [|cbn; rewrite Hpl; auto].
    destruct (JsString.test_cljs id').
    + destruct (projectRoot (plugin w0)) as [root|] eqn:Hroot;
        cbn; rewrite Hpl in *; [|auto].
      split; [apply registry_ok_register; assumption|].
      eapply Forall_impl; [exact Hps|]. intros p. apply pending_ok_config; reflexivity.
    + destruct (JsString.truthy_opt _); [destruct (negb _)|];
        cbn; rewrite Hpl; auto.
  - destruct (load_begin id w) as [s w0] eqn:Hb. cbn [fst snd].
    assert (Hpl : plugin w0 = plugin w).
    { revert Hb. rewrite load_begin_cases.
      destruct (compiledFileMap (plugin w) !! id) as [src|];
        [|destruct (inherited_name id); intros [= _ <-]; auto].
      destruct (negb _); [intros [= _ <-]; auto|].
      destruct (fs_stat _ _) as [[st|]|e]; [|intros [= _ <-]; auto..].
      destruct (_ <? _)%Z; [destruct (fs_read _ _)|]; intros [= _ <-]; auto. }
    rewrite Hpl. split; [exact Hok|].
    destruct s as [[r|p]|e]; try exact Hps.
    constructor; [|exact Hps].
    destruct (load_begin_await _ _ _ _ Hb) as (_ & Hid & Hagain).
    assert (Hsrc : compiledFileMap (plugin w) !! id = Some (p_srcFile p)).
    { revert Hb. rewrite load_begin_cases.
      destruct (compiledFileMap (plugin w) !! id) as [src|];
        [|destruct (inherited_name id); discriminate].
      destruct (negb _); [discriminate|].
      destruct (fs_stat _ _) as [[st|]|e]; try discriminate.
      destruct (_ <? _)%Z; [destruct (fs_read _ _)|destruct (fs_read _ _)];
        try discriminate.
      intros [= <- _]. reflexivity. }
    destruct (Hok _ _ Hsrc) as [(root & Hroot & Hout) _].
    exists root. rewrite Hid. auto.
  - assert (Hp : pending_ok cwd (plugin w) p).
    { rewrite Forall_forall in Hps. apply Hps. apply list_elem_of_In. exact Hin. }
    rewrite load_resume_cases.
    destruct compiled as [js|e]; [|auto]. cbn.
    destruct (fs_mkdir _ _) as [f1|e]; [|auto].
    destruct (fs_write _ _ _) as [f2|e]; [|auto].
    cbn. split; [apply registry_ok_advance; assumption|].
    eapply Forall_impl; [exact Hps|]. intros q. apply pending_ok_config; reflexivity.
  - auto.
Qed.

(** X18: every entry of [compiledFileMap] has its record.  From a state
    in which every output that [load] knows is the output path of its
    source and that source has a record pointing back at it, as in a fresh
    plugin, every state that [resolveId] calls, loads in flight (started,
    continued with any outcome of the compiler, interleaved in any order)
    and changes of the file system lead to is such a state again. *)
Theorem registry_ok_async w ps w' ps' :
  rtc (async_step cwd) (w, ps) (w', ps') ->
  registry_ok cwd (plugin w) ->
  Forall (pending_ok cwd (plugin w)) ps ->
  registry_ok cwd (plugin w')
  /\ Forall (pending_ok cwd (plugin w')) ps'.
Proof.
  intros Hsteps Hok Hps.
  assert (Hcons : consistent cwd (w, ps)) by (split; assumption).
  clear Hok Hps.
  change (consistent cwd (w', ps')).
  induction Hsteps as [x | x y z Hstep _ IH]; [exact Hcons|].
  apply IH. exact (async_step_consistent _ _ Hstep Hcons).
Qed.

(** A fresh plugin has empty registries. *)
Lemma registry_ok_fresh (opts_outputDir : option string) (root : string) :
  registry_ok cwd (configResolved root (viteSquint opts_outputDir)).
Proof. intros out src. cbn. rewrite lookup_empty. discriminate. Qed.

End Consistency.

(** *** [handleHotUpdate] once more *)

(** X19: the hook never drops a pending module.  Whatever the file, the
    plugin state and the graph, a list it returns is the pending list, or
    the pending list with one module appended; in the first case, and when
    it returns [undefined] or throws, the graph is left as it was. *)
Theorem handleHotUpdate_keeps_pending {G Mod : Type} `{ModuleGraph G Mod}
    (pl : Plugin) (file : string) (server : G) (modules : list Mod) :
  match handleHotUpdate pl file server modules with
  | (Throw _, server') => server' = server
  | (Ok None, server') => server' = server
  | (Ok (Some l), server') =>
      (l = modules /\ server' = server)
      \/ exists out t m,
           srcFileMap pl !! file = Some (out, t)
           /\ getModuleById server out = Some m
           /\ l = (modules ++ [m])%list
           /\ server' = onFileChange server out
  end.
Proof.
  unfold handleHotUpdate.
  destruct (srcFileMap pl !! file) as [[out t]|] eqn:Hsrc;
    [|destruct (inherited_name file); reflexivity].
  destruct (JsString.truthy out); [|reflexivity].
  destruct (getModuleById server out) as [m|] eqn:Hget; [|auto].
  right. exists out, t, m. auto.
Qed.

(** *** The further properties on the small project *)

(** Feeds a statement its premises, each settled by evaluation. *)
Ltac settle :=
  first [ vm_compute; reflexivity | vm_compute; discriminate ].
Tactic Notation "feed" integer(n) hyp(W) :=
  do n (cbv zeta in W; specialize (W ltac:(settle))); cbv zeta in W.

Lemma resolveId_source_output_distinct_witness :
  fst (resolveId "/p" "./b" "/p/out/src/a.jsx" false Demo.world1)
    = Ok (RId "/p/out/src/b.jsx")
  /\ "/p/out/src/b.jsx" <> "/p/src/b.cljs".
Proof.
  pose proof (resolveId_source_output_distinct "/p" "./b" "/p/out/src/a.jsx"
                Demo.world1 "/p/src/b.cljs"
                (add_events [EvStat "/p/src/b.cljs"] Demo.world1) "/p") as W.
  feed 3 W. destruct W as (Hres & _ & _ & _ & Hne).
  split; [exact Hres | exact Hne].
Defined.

Lemma resolveId_extensionless_equivalence_witness :
  fst (resolveId "/p" "./b" "/p/out/src/a.jsx" false Demo.world1)
  = fst (resolveId "/p" "./b.cljs" "/p/out/src/a.jsx" false Demo.world1).
Proof.
  pose proof (resolveId_extensionless_equivalence "/p" "./b" "/p/out/src/a.jsx"
                Demo.world1 {| st_isFile := true; st_mtimeMs := 7 |}) as W.
  feed 6 W. exact (proj1 W).
Defined.

Lemma resolveId_from_compiled_importer_witness :
  resolveId "/p" "./util.js" "/p/out/src/a.jsx" false Demo.world2
    = (Ok (RId "/p/src/util.js"), Demo.world2)
  /\ resolveId "/p" "react" "/p/out/src/a.jsx" false Demo.world2
     = (Ok RUndefined, add_events [EvStat "/p/src/react.cljs"] Demo.world2).
Proof.
  pose proof (resolveId_from_compiled_importer "/p" "./util.js"
                "/p/out/src/a.jsx" Demo.world2 Demo.world2 "/p/src/a.cljs") as W1.
  pose proof (resolveId_from_compiled_importer "/p" "react"
                "/p/out/src/a.jsx" Demo.world2
                (add_events [EvStat "/p/src/react.cljs"] Demo.world2)
                "/p/src/a.cljs") as W2.
  feed 4 W1. feed 4 W2. split; [exact (proj1 W1) | exact (proj1 W2)].
Defined.

Lemma resolveId_plain_importer_defers_witness :
  resolveIdHook "/p" "./style.css" (Some "/p/src/main.js") false Demo.world2
  = (Ok RUndefined, Demo.world2).
Proof.
  pose proof (resolveId_plain_importer_defers "/p" "./style.css" "/p/src/main.js"
                Demo.world2 "./style.css" Demo.world2) as W.
  feed 4 W. exact (proj1 W).
Defined.

(** An entry module, and an importer named [constructor]. *)
Lemma resolveId_invalid_importer_examples :
  resolveIdHook "/p" "/p/src/a.cljs" None false Demo.world2
    = (Throw (TypeError "path"), Demo.world2)
  /\ resolveIdHook "/p" "./b" (Some "constructor") false Demo.world2
     = (Throw (TypeError "path"), Demo.world2)
  /\ resolveIdHook "/p" "/p/src/a.cljs" None true Demo.world2
     = (Ok RNull, Demo.world2).
Proof. repeat split; vm_compute; reflexivity. Qed.

Lemma resolveId_before_configResolved_witness :
  resolveId "/p" "/p/src/a.cljs" "/p/index.html" false Cases.unconfigured
  = (Throw (TypeError "from"), Cases.unconfigured).
Proof.
  pose proof (resolveId_before_configResolved "/p" "/p/src/a.cljs"
                "/p/index.html" Cases.unconfigured "/p/src/a.cljs"
                Cases.unconfigured) as W.
  feed 3 W. exact (proj1 W).
Defined.


Lemma resolveId_registers_pair_witness :
  srcFileMap (plugin Demo.world2) !! "/p/src/b.cljs"
    = Some ("/p/out/src/b.jsx", 0%Z)
  /\ compiledFileMap (plugin Demo.world2) !! "/p/out/src/b.jsx"
     = Some "/p/src/b.cljs"
  /\ srcFileMap (plugin Demo.world2) !! "/p/src/a.cljs"
     = srcFileMap (plugin Demo.world1) !! "/p/src/a.cljs".
Proof.
  pose proof (resolveId_registers_pair "/p" "./b" "/p/out/src/a.jsx"
                Demo.world1 "/p/src/b.cljs"
                (add_events [EvStat "/p/src/b.cljs"] Demo.world1) "/p") as W.
  feed 3 W. destruct W as (Hs & Hc & Hframe & _).
  split; [exact Hs|]. split; [exact Hc|].
  apply (Hframe "/p/src/a.cljs"). discriminate.
Defined.

Lemma load_advances_only_after_write_witness :
  exists f2,
    fs Demo.world3 = f2
    /\ plugin Demo.world3
       = set_srcFile "/p/src/a.cljs" "/p/out/src/a.jsx" 5 (plugin Demo.world2).
Proof.
  destruct (load_advances_only_after_write Demo.accept "/p/out/src/a.jsx"
              Demo.world2)
    as (src & st & code & js & f1 & f2 & Hsrc & Hst & _ & _ & _ & _ & Hfs & Hpl).
  { intros Heq.
    apply (f_equal (fun pl => modTimeOf pl "/p/src/a.cljs")) in Heq.
    vm_compute in Heq. discriminate Heq. }
  exists f2. split; [exact Hfs|].
  assert (Hsrc' : src = "/p/src/a.cljs").
  { vm_compute in Hsrc. congruence. }
  subst src.
  assert (Hst' : st_mtimeMs st = 5%Z).
  { vm_compute in Hst. injection Hst as <-. reflexivity. }
  rewrite <- Hst'. exact Hpl.
Defined.

Lemma load_source_missing_witness :
  load Demo.accept "/p/out/src/a.jsx" Cases.deleted
  = (Throw (FsError "ENOENT" "/p/src/a.cljs"),
     add_events [EvStat "/p/src/a.cljs"] Cases.deleted).
Proof.
  pose proof (load_source_missing Demo.accept "/p/out/src/a.jsx"
                "/p/src/a.cljs" Cases.deleted) as W.
  feed 3 W. exact W.
Defined.

Lemma load_after_compile_witness :
  load Demo.accept "/p/out/src/a.jsx" Demo.world3
  = (loadResultOf (fs_read (fs Demo.world3) "/p/out/src/a.jsx"),
     add_events [EvReadFile "/p/out/src/a.jsx"; EvStat "/p/src/a.cljs"]
       Demo.world3).
Proof.
  pose proof (load_after_compile Demo.accept Cases.pending_a (Ok "js:(ns a)")
                (snd (load_begin "/p/out/src/a.jsx" Demo.world2))
                (LCode "js:(ns a)") Demo.world3 Demo.world3
                {| st_isFile := true; st_mtimeMs := 5 |}) as W.
  feed 5 W. destruct W as (_ & Hold).
  apply Hold. vm_compute. discriminate.
Defined.

Lemma resolveId_then_cold_load_witness :
  exists w3,
    load Demo.accept "/p/out/src/a.jsx" Demo.world1
      = (loadResultOf (fs_read (fs Demo.world3) "/p/out/src/a.jsx"), w3)
    /\ srcFileMap (plugin w3) !! "/p/src/a.cljs" = Some ("/p/out/src/a.jsx", 5%Z).
Proof.
  pose proof (resolveId_then_cold_load "/p" Demo.accept
                "/p/src/a.cljs" "/p/index.html" Demo.world0
                "/p/src/a.cljs" Demo.world0 "/p" Demo.world1
                {| st_isFile := true; st_mtimeMs := 5 |} "(ns a)" "js:(ns a)"
                (match fs_mkdir (fs Demo.world1) "/p/out/src" with
                 | Ok f1 => f1
                 | Throw _ => fs Demo.world1
                 end)
                (fs Demo.world3)) as W.
  feed 10 W. destruct W as (w3 & Hrun & _ & Hrec & _).
  exists w3. split; [exact Hrun | exact Hrec].
Defined.

Lemma resolveId_then_epoch_source_witness :
  load Demo.accept "/p/out/src/e.jsx"
    (snd (resolveId "/p" "/p/src/e.cljs" "/p/index.html" false Cases.epoch))
  = (loadResultOf (fs_read (fs Cases.epoch) "/p/out/src/e.jsx"),
     add_events [EvReadFile "/p/out/src/e.jsx"; EvStat "/p/src/e.cljs"]
       (snd (resolveId "/p" "/p/src/e.cljs" "/p/index.html" false Cases.epoch))).
Proof.
  pose proof (resolveId_then_epoch_source "/p" Demo.accept
                "/p/src/e.cljs" "/p/index.html" Cases.epoch
                "/p/src/e.cljs" Cases.epoch "/p"
                (snd (resolveId "/p" "/p/src/e.cljs" "/p/index.html" false
                        Cases.epoch))
                {| st_isFile := true; st_mtimeMs := 0 |}) as W.
  feed 6 W. exact W.
Defined.

Lemma resolveId_then_handleHotUpdate_witness :
  handleHotUpdate
    (plugin (snd (resolveId "/p" "/p/src/a.cljs" "/p/index.html" false
                    Demo.world0)))
    "/p/src/a.cljs" Demo.graph ["m"]
  = (Ok (Some ["m"; "/p/out/src/a.jsx"]),
     {| ListGraph.live := ["/p/out/src/a.jsx"];
        ListGraph.invalidated := ["/p/out/src/a.jsx"] |}).
Proof.
  pose proof (resolveId_then_handleHotUpdate "/p"
                "/p/src/a.cljs" "/p/index.html" Demo.world0
                "/p/src/a.cljs" Demo.world0 "/p" Demo.graph ["m"]) as W.
  feed 3 W. destruct W as (_ & Hhot).
  etransitivity; [exact Hhot|]. vm_compute. reflexivity.
Defined.

Lemma session_registries_grow_witness :
  is_Some (srcFileMap (plugin Demo.world4) !! "/p/src/b.cljs").
Proof.
  assert (Hsession : rtc (session_step "/p") Demo.world2 Demo.world4).
  { apply (rtc_l _ _ (snd (load_begin "/p/out/src/a.jsx" Demo.world2)));
      [apply step_load_begin|].
    apply (rtc_l _ _ Demo.world3).
    - exact (step_load_resume "/p" Cases.pending_a (Ok "js:(ns a)")
               (snd (load_begin "/p/out/src/a.jsx" Demo.world2))).
    - apply rtc_once. apply step_resolveId. }
  destruct (session_registries_grow "/p" _ _ Hsession) as [Hgrow _].
  apply Hgrow. vm_compute. eauto.
Defined.

Lemma registry_ok_async_witness :
  registry_ok "/p" (plugin Demo.world3).
Proof.
  assert (Hsteps : rtc (async_step "/p") (Demo.world0, [])
                     (Demo.world3, [Cases.pending_a])).
  { apply (rtc_l _ _ (Demo.world1, [])); [apply async_resolveId|].
    apply (rtc_l _ _ (Demo.world2, [])); [apply async_resolveId|].
    apply (rtc_l _ _ (snd (load_begin "/p/out/src/a.jsx" Demo.world2),
                      [Cases.pending_a])).
    { exact (async_load_begin "/p" "/p/out/src/a.jsx" Demo.world2 []). }
    apply rtc_once.
    apply (async_load_resume "/p" Cases.pending_a (Ok "js:(ns a)")).
    left. reflexivity. }
  destruct (registry_ok_async "/p" _ _ _ _ Hsteps) as [Hok _].
  - intros out src Hlook. vm_compute in Hlook. discriminate Hlook.
  - constructor.
  - exact Hok.
Defined.

Lemma resolveId_probe_miss_witness :
  resolveIdHook "/p" "./src" (Some "/p/index.html") false Demo.world0
  = (Ok RUndefined, add_events [EvStat "/p/src.cljs"] Demo.world0).
Proof.
  pose proof (resolveId_probe_miss "/p" "./src" "/p/index.html" Demo.world0) as W.
  feed 3 W. apply W. left. vm_compute. reflexivity.
Defined.

Lemma resolveId_idempotent_witness :
  fst (resolveId "/p" "./b" "/p/out/src/a.jsx" false Demo.world2)
  = fst (resolveId "/p" "./b" "/p/out/src/a.jsx" false Demo.world1)
  /\ plugin (snd (resolveId "/p" "./b" "/p/out/src/a.jsx" false Demo.world2))
     = plugin Demo.world2.
Proof.
  apply (resolveId_idempotent "/p" "./b" "/p/out/src/a.jsx" false Demo.world1).
  vm_compute. discriminate.
Defined.
